(** * MiniPython (COMPIL): semantic analysis and execution of TP4.py, the
      semantic analysis of analyse_minipython.py and the lexical phase of
      prgPythonPur.py.

    The Python code is dynamically typed: an AST is made of ints, strings,
    tuples and lists, [eval_expr] hands some of them back unchanged, and the
    [/] operator produces floats.  The embedding therefore has one type of
    Python objects, a result type for raised exceptions, and dictionaries
    with string keys as [gmap string _].  Lexing and parsing are Lark's in
    TP4.py; the embedding of that file starts from the AST that
    [SyntaxTransformer] returns.

    The limits of the interpreter are not part of the embedding: ints are
    unbounded, [eval_expr] recurses as deep as its expression is nested, and
    int() and print convert any number of digits (CPython stops at a
    recursion depth of 1000 and, since 3.11, at 4300 digits).  A statement
    that would depend on a limit carries the bound as a hypothesis, or names
    the exceptions it excludes. *)

From Stdlib Require Import ZArith Ascii String List Bool Lia.
From Stdlib Require Import Floats.SpecFloat.
From stdpp Require Import base option list strings gmap.

Local Open Scope Z_scope.

(** ** Python objects and exceptions *)

Module Py.

(** binary64, the format of a Python float *)
Definition prec : Z := 53.
Definition emax : Z := 1024.

#[warnings="-register-all"]
Inductive pyobj : Type :=
  | PInt (n : Z)
  | PFloat (f : spec_float)
  | PStr (s : string)
  | PTuple (items : list pyobj)
  | PList (items : list pyobj).

(** The exceptions the modelled code can raise.  [Redeclared] and
    [UndeclaredVariable] are the two [Exception(...)] of
    [SemanticTransformer.check], told apart by their message. *)
Inductive exn : Type :=
  | TypeError
  | OverflowError
  | ZeroDivisionError
  | IndexError
  | Redeclared (var : string)
  | UndeclaredVariable (var : string).

(** f"Erreur : variable {var} déjà déclarée" and
    f"Erreur : variable {var} non déclarée" *)
Definition message (e : exn) : string :=
  match e with
  | Redeclared var => "Erreur : variable " +:+ var +:+ " déjà déclarée"
  | UndeclaredVariable var => "Erreur : variable " +:+ var +:+ " non déclarée"
  | TypeError => "TypeError"
  | OverflowError => "OverflowError"
  | ZeroDivisionError => "ZeroDivisionError"
  | IndexError => "IndexError"
  end.

Inductive result (A : Type) : Type :=
  | Ok (a : A)
  | Raise (e : exn).
Arguments Ok {A} a.
Arguments Raise {A} e.

#[global] Instance result_ret : MRet result := fun A a => Ok a.
#[global] Instance result_bind : MBind result := fun A B k r =>
  match r with
  | Ok a => k a
  | Raise e => Raise e
  end.

(** *** Numbers *)

(** float(n) for an int n: rounded to nearest even, OverflowError when the
    int is too large for a double. *)
Definition to_float (n : Z) : result spec_float :=
  match binary_normalize prec emax n 0 false with
  | S754_infinity _ => Raise OverflowError
  | f => Ok f
  end.

Definition float_is_zero (f : spec_float) : bool :=
  match f with
  | S754_zero _ => true
  | _ => false
  end.

(** n / d on ints: the correctly rounded quotient as a float; a zero
    numerator gives a zero with the sign of the divisor. *)
Definition int_truediv (n d : Z) : result pyobj :=
  if d =? 0 then Raise ZeroDivisionError
  else if n =? 0 then Ok (PFloat (S754_zero (d <? 0)))
  else
    let '(mz, ez, lz) := SFdiv_core_binary prec emax (Z.abs n) 0 (Z.abs d) 0 in
    match binary_round_aux prec emax (xorb (n <? 0) (d <? 0)) mz ez lz with
    | S754_infinity _ => Raise OverflowError
    | f => Ok (PFloat f)
    end.

Definition float_truediv (f g : spec_float) : result pyobj :=
  if float_is_zero g then Raise ZeroDivisionError
  else Ok (PFloat (SFdiv prec emax f g)).

(** int op int stays an int; as soon as one operand is a float the other one
    is converted. [None] when an operand is not a number. *)
Definition arith (fi : Z -> Z -> result pyobj)
    (ff : spec_float -> spec_float -> result pyobj)
    (a b : pyobj) : option (result pyobj) :=
  match a, b with
  | PInt x, PInt y => Some (fi x y)
  | PInt x, PFloat g => Some (f ← to_float x; ff f g)
  | PFloat f, PInt y => Some (g ← to_float y; ff f g)
  | PFloat f, PFloat g => Some (ff f g)
  | _, _ => None
  end.

Fixpoint repeat_items {A : Type} (n : nat) (xs : list A) : list A :=
  match n with
  | O => []
  | S k => xs ++ repeat_items k xs
  end.

Fixpoint repeat_string (n : nat) (s : string) : string :=
  match n with
  | O => ""
  | S k => s +:+ repeat_string k s
  end.

(** a + b *)
Definition py_add (a b : pyobj) : result pyobj :=
  match arith (fun x y => Ok (PInt (x + y)))
              (fun f g => Ok (PFloat (SFadd prec emax f g))) a b with
  | Some r => r
  | None =>
      match a, b with
      | PStr s, PStr t => Ok (PStr (s +:+ t))
      | PTuple xs, PTuple ys => Ok (PTuple (xs ++ ys))
      | PList xs, PList ys => Ok (PList (xs ++ ys))
      | _, _ => Raise TypeError
      end
  end.

(** a - b *)
Definition py_sub (a b : pyobj) : result pyobj :=
  match arith (fun x y => Ok (PInt (x - y)))
              (fun f g => Ok (PFloat (SFsub prec emax f g))) a b with
  | Some r => r
  | None => Raise TypeError
  end.

(** a * b; a sequence times an int is repeated (not at all for a count
    below 1). *)
Definition py_mul (a b : pyobj) : result pyobj :=
  match arith (fun x y => Ok (PInt (x * y)))
              (fun f g => Ok (PFloat (SFmul prec emax f g))) a b with
  | Some r => r
  | None =>
      match a, b with
      | PStr s, PInt n | PInt n, PStr s => Ok (PStr (repeat_string (Z.to_nat n) s))
      | PTuple xs, PInt n | PInt n, PTuple xs => Ok (PTuple (repeat_items (Z.to_nat n) xs))
      | PList xs, PInt n | PInt n, PList xs => Ok (PList (repeat_items (Z.to_nat n) xs))
      | _, _ => Raise TypeError
      end
  end.

(** a / b, Python 3's true division *)
Definition py_truediv (a b : pyobj) : result pyobj :=
  match arith int_truediv float_truediv a b with
  | Some r => r
  | None => Raise TypeError
  end.

(** a != 0 *)
Definition py_ne0 (a : pyobj) : bool :=
  match a with
  | PInt n => negb (n =? 0)
  | PFloat f => negb (float_is_zero f)
  | _ => true
  end.

(** op == '+' and the like, for an arbitrary first item of a tuple *)
Definition is_str (o : pyobj) (s : string) : bool :=
  match o with
  | PStr t => bool_decide (t = s)
  | _ => false
  end.

(** *** Text *)

Definition code (c : ascii) : N := N_of_ascii c.

Definition is_digit (c : ascii) : bool := ((48 <=? code c) && (code c <=? 57))%N.

Definition is_alpha_ (c : ascii) : bool :=
  (((65 <=? code c) && (code c <=? 90)) || ((97 <=? code c) && (code c <=? 122))
   || (code c =? 95))%N.

(** the blanks int() passes over before and behind the digits: tab, line
    feed, vertical tab, form feed, carriage return and space *)
Definition is_space (c : ascii) : bool :=
  (((9 <=? code c) && (code c <=? 13)) || (code c =? 32))%N.

Definition digit_value (c : ascii) : Z := Z.of_N (code c) - 48.

(** s.isdigit(): not empty and made of digits *)
Definition isdigit (s : string) : bool :=
  match list_ascii_of_string s with
  | [] => false
  | cs => forallb is_digit cs
  end.

(** Digits with single underscores between them. *)
Fixpoint digits_value (acc : Z) (after_digit : bool) (cs : list ascii) : option Z :=
  match cs with
  | [] => if after_digit then Some acc else None
  | c :: cs' =>
      if is_digit c then digits_value (10 * acc + digit_value c) true cs'
      else if (code c =? 95)%N
           then (if after_digit then digits_value acc false cs' else None)
           else None
  end.

Fixpoint lstrip (cs : list ascii) : list ascii :=
  match cs with
  | c :: cs' => if is_space c then lstrip cs' else cs
  | [] => []
  end.

Definition strip (cs : list ascii) : list ascii := rev (lstrip (rev (lstrip cs))).

(** int(s) for a str s, in base 10; [None] is ValueError.  ASCII text. *)
Definition py_int (s : string) : option Z :=
  match strip (list_ascii_of_string s) with
  | "-"%char :: cs => Z.opp <$> digits_value 0 false cs
  | "+"%char :: cs => digits_value 0 false cs
  | cs => digits_value 0 false cs
  end.

End Py.

(** ** TP4.py: semantic analysis and execution *)

Module TP4.
Import Py.

(** The statements [SyntaxTransformer] builds are the tuples
    ("decl", vars_list), ("assign", name, expr) and ("print", name).
    [SOther] stands for any other tuple with a string in front (a tag that
    is none of "decl", "assign", "print"), such as the while and if nodes of
    the richer grammars. *)
Inductive stmt : Type :=
  | SDecl (var_list : list string)
  | SAssign (var : string) (expr : pyobj)
  | SPrint (var : string)
  | SOther (tag : string) (rest : list pyobj).

(** *** class SemanticTransformer *)

(** the loop [for var in var_list] of the "decl" branch: the table as the
    loop left it, and the exception that stopped it, if any *)
Fixpoint declare (var_list : list string) (symbol_table : gmap string string)
    : gmap string string * option exn :=
  match var_list with
  | [] => (symbol_table, None)
  | var :: var_list' =>
      match symbol_table !! var with
      | Some _ => (symbol_table, Some (Redeclared var))
      | None => declare var_list' (<[var := "int"]> symbol_table)
      end
  end.

(** The loop of [check] from a given table and a given [new_ast]; the first
    component is [self.symbol_table] when the method returns or raises. *)
Fixpoint check_from (ast_list : list stmt) (symbol_table : gmap string string)
    (new_ast : list stmt) : gmap string string * result (list stmt) :=
  match ast_list with
  | [] => (symbol_table, Ok new_ast)
  | stmt :: ast_list' =>
      match stmt with
      | SDecl var_list =>
          match declare var_list symbol_table with
          | (symbol_table', Some e) => (symbol_table', Raise e)
          | (symbol_table', None) =>
              check_from ast_list' symbol_table' (new_ast ++ [stmt])
          end
      | SAssign var expr =>
          match symbol_table !! var with
          | None => (symbol_table, Raise (UndeclaredVariable var))
          | Some _ => check_from ast_list' symbol_table (new_ast ++ [stmt])
          end
      | SPrint var =>
          match symbol_table !! var with
          | None =>
              if isdigit var
              then check_from ast_list' symbol_table (new_ast ++ [stmt])
              else (symbol_table, Raise (UndeclaredVariable var))
          | Some _ => check_from ast_list' symbol_table (new_ast ++ [stmt])
          end
      | SOther _ _ => check_from ast_list' symbol_table new_ast
      end
  end.

(** [self.check(ast_list)] on a transformer whose table is [symbol_table] *)
Definition check (symbol_table : gmap string string) (ast_list : list stmt)
    : gmap string string * result (list stmt) :=
  check_from ast_list symbol_table [].

(** [SemanticTransformer().check(ast_list)]: __init__ sets the table to {} *)
Definition analyse (ast_list : list stmt) : gmap string string * result (list stmt) :=
  check ∅ ast_list.

(** *** execute *)

Fixpoint eval_expr (runtime : gmap string pyobj) (expr : pyobj) : result pyobj :=
  match expr with
  | PInt _ => Ok expr
  | PStr s =>
      match runtime !! s with
      | Some v => Ok v
      | None =>
          match py_int s with
          | Some n => Ok (PInt n)
          | None => Ok (PInt 0)
          end
      end
  | PTuple [] => Raise IndexError
  | PTuple (op :: e1 :: e2 :: _) =>
      left ← eval_expr runtime e1;
      right ← eval_expr runtime e2;
      if is_str op "+" then py_add left right
      else if is_str op "-" then py_sub left right
      else if is_str op "*" then py_mul left right
      else if is_str op "/"
           then (if py_ne0 right then py_truediv left right else Ok (PInt 0))
           else Ok expr
  | _ => Ok expr
  end.

(** runtime = {var: 0 for var in symbol_table.keys()} *)
Definition initial_runtime (symbol_table : gmap string string) : gmap string pyobj :=
  (fun _ => PInt 0) <$> symbol_table.

(** One turn of the loop [for stmt in ast]: the runtime after it and what it
    printed. *)
Definition exec_stmt (runtime : gmap string pyobj) (s : stmt)
    : result (gmap string pyobj * list pyobj) :=
  match s with
  | SAssign var expr =>
      val ← eval_expr runtime expr;
      match runtime !! var with
      | Some _ => Ok (<[var := val]> runtime, [])
      | None => Ok (runtime, [])
      end
  | SPrint var =>
      result ← eval_expr runtime (PStr var);
      Ok (runtime, [result])
  | _ => Ok (runtime, [])
  end.

Record state : Type := State {
  runtime : gmap string pyobj;
  output : list pyobj
}.

(** The loop from a given state: the state when it ends, and the exception
    that ended it, if any. *)
Fixpoint run (ast : list stmt) (st : state) : state * option exn :=
  match ast with
  | [] => (st, None)
  | s :: ast' =>
      match exec_stmt (runtime st) s with
      | Raise e => (st, Some e)
      | Ok (runtime', printed) => run ast' (State runtime' (output st ++ printed))
      end
  end.

(** The states the loop goes through: the one it starts in and the one
    after each statement that ended without an exception. *)
Fixpoint states (ast : list stmt) (st : state) : list state :=
  st :: match ast with
        | [] => []
        | s :: ast' =>
            match exec_stmt (runtime st) s with
            | Raise _ => []
            | Ok (runtime', printed) => states ast' (State runtime' (output st ++ printed))
            end
        end.

Definition execute (ast : list stmt) (symbol_table : gmap string string)
    : state * option exn :=
  run ast (State (initial_runtime symbol_table) []).

(** Phases 3 and 5 of [compile_and_execute] on a parsed program: a fresh
    transformer, and execution only when the analysis did not raise; what
    was printed, and the exception that stopped the analysis or the
    execution, if any. *)
Definition analyse_and_execute (ast_syntax : list stmt) : list pyobj * option exn :=
  match analyse ast_syntax with
  | (_, Raise e) => ([], Some e)
  | (symbol_table, Ok ast_semantic) =>
      let '(st, e) := execute ast_semantic symbol_table in (output st, e)
  end.

End TP4.

(** ** prgPythonPur.py: the lexical phase *)

Module PrgPythonPur.
Import Py.

(** The regular expressions of [token_specification]: a fixed text, a run
    of one class (NUMBER and SKIP), or one character of a class followed by
    a run of another (ID).  ASCII text: a digit is one of 0-9 and a word
    character is a letter, a digit or the underscore. *)
Inductive pattern : Type :=
  | Literal (text : string)
  | OneOrMore (cls : ascii -> bool)
  | HeadThenMany (head cls : ascii -> bool).

Definition is_word (c : ascii) : bool := is_alpha_ c || is_digit c.

(** [ \t\n] *)
Definition is_blank (c : ascii) : bool :=
  ((code c =? 32) || (code c =? 9) || (code c =? 10))%N.

Definition token_specification : list (string * pattern) :=
  [ ("NUMBER", OneOrMore is_digit); ("INT", Literal "int"); ("PRINT", Literal "print");
    ("ID", HeadThenMany is_alpha_ is_word); ("COMMA", Literal ","); ("SEMICOLON", Literal ";");
    ("PLUS", Literal "+"); ("EQUAL", Literal "="); ("LPAR", Literal "("); ("RPAR", Literal ")");
    ("SKIP", OneOrMore is_blank) ].

(** the length of the longest run of [cls] in front of the text *)
Fixpoint run_length (cls : ascii -> bool) (cs : list ascii) : nat :=
  match cs with
  | c :: cs' => if cls c then S (run_length cls cs') else O
  | [] => O
  end.

Fixpoint is_prefix (p cs : list ascii) : bool :=
  match p, cs with
  | [], _ => true
  | a :: p', c :: cs' => bool_decide (a = c) && is_prefix p' cs'
  | _ :: _, [] => false
  end.

(** The length of the match of one pattern in front of the text (the star
    and the plus are greedy, and nothing follows them). *)
Definition match_length (p : pattern) (cs : list ascii) : option nat :=
  match p with
  | Literal text =>
      let t := list_ascii_of_string text in
      if is_prefix t cs then Some (length t) else None
  | OneOrMore cls =>
      match run_length cls cs with
      | O => None
      | n => Some n
      end
  | HeadThenMany head cls =>
      match cs with
      | c :: cs' => if head c then Some (S (run_length cls cs')) else None
      | [] => None
      end
  end.

(** regex = '|'.join(...): the alternatives are tried in the order of
    [token_specification] and the first that matches wins; the name is
    [m.lastgroup]. *)
Fixpoint first_match (spec : list (string * pattern)) (cs : list ascii)
    : option (string * nat) :=
  match spec with
  | [] => None
  | (name, p) :: spec' =>
      match match_length p cs with
      | Some n => Some (name, n)
      | None => first_match spec' cs
      end
  end.

(** re.finditer(regex, code_source): the matches from left to right, as
    (lastgroup, group()).  [skip] counts the characters of the last match
    still to be passed; where no alternative matches, the search moves on to
    the next character. *)
Fixpoint finditer (skip : nat) (cs : list ascii) : list (string * string) :=
  match cs with
  | [] => []
  | _ :: cs' =>
      match skip with
      | S k => finditer k cs'
      | O =>
          match first_match token_specification cs with
          | Some (name, n) =>
              (name, string_of_list_ascii (take n cs)) :: finditer (Nat.pred n) cs'
          | None => finditer O cs'
          end
      end
  end.

(** tokens = [(m.lastgroup, m.group()) for m in ... if m.lastgroup != 'SKIP'] *)
Definition tokens (code_source : string) : list (string * string) :=
  filter (fun t => t.1 ≠ "SKIP") (finditer O (list_ascii_of_string code_source)).

(** runtime = {var: None for var in symbol_table.keys()}, the first line of
    this file's own [execute]; [None] is Python's None. *)
Definition initial_runtime (symbol_table : gmap string string)
    : gmap string (option pyobj) :=
  (fun _ => None) <$> symbol_table.

End PrgPythonPur.

(** ** analyse_minipython.py: the semantic analysis *)

Module AnalyseMinipython.
Import Py.

(** The statements of this file's [SyntaxTransformer]:
    ("decl(L)", vars, 'int'), ("assign(S)", name, expr), ("print(S)", name)
    and ('+(S)', left, right); an addition on the right of an assignment is
    the tuple ('+(S)', left, right) inside the assign tuple. *)
Inductive stmt : Type :=
  | SDecl (vars : list string)
  | SAssign (var : string) (expr : pyobj)
  | SPrint (var : string)
  | SAdd (left right : pyobj)
  | SOther (tag : string) (rest : list pyobj).

(** x + n as [add] builds it *)
Definition add (left right : pyobj) : pyobj := PTuple [PStr "+(S)"; left; right].

(** The loop of [check]; the "decl(L)" branch is the loop of TP4.py. *)
Fixpoint check_from (ast_list : list stmt) (symbol_table : gmap string string)
    (new_ast : list stmt) : gmap string string * result (list stmt) :=
  match ast_list with
  | [] => (symbol_table, Ok new_ast)
  | stmt :: ast_list' =>
      match stmt with
      | SDecl vars =>
          match TP4.declare vars symbol_table with
          | (symbol_table', Some e) => (symbol_table', Raise e)
          | (symbol_table', None) =>
              check_from ast_list' symbol_table' (new_ast ++ [stmt])
          end
      | SAssign var _ | SPrint var =>
          match symbol_table !! var with
          | None => (symbol_table, Raise (UndeclaredVariable var))
          | Some _ => check_from ast_list' symbol_table (new_ast ++ [stmt])
          end
      | SAdd operand _ =>
          match operand with
          | PStr name =>
              match symbol_table !! name with
              | None => (symbol_table, Raise (UndeclaredVariable name))
              | Some _ => check_from ast_list' symbol_table (new_ast ++ [stmt])
              end
          | _ => check_from ast_list' symbol_table (new_ast ++ [stmt])
          end
      | SOther _ _ => check_from ast_list' symbol_table new_ast
      end
  end.

(** [SemanticTransformer().check(ast_syntax)] *)
Definition analyse (ast_list : list stmt) : gmap string string * result (list stmt) :=
  check_from ast_list ∅ [].

End AnalyseMinipython.

(** ** Programs and notions used in the statements *)

Module Programs.
Import Py TP4.

(** the exception a result carries *)
Definition raised {A : Type} (r : result A) : option exn :=
  match r with
  | Ok _ => None
  | Raise e => Some e
  end.

(** the name a statement assigns to *)
Definition target (s : stmt) : option string :=
  match s with
  | SAssign var _ => Some var
  | _ => None
  end.

(** the names a program declares, in order *)
Fixpoint declared_names (ast_list : list stmt) : list string :=
  match ast_list with
  | [] => []
  | SDecl var_list :: ast_list' => var_list ++ declared_names ast_list'
  | _ :: ast_list' => declared_names ast_list'
  end.

(** the statements [check] copies to [new_ast] *)
Definition kept (s : stmt) : bool :=
  match s with
  | SOther _ _ => false
  | _ => true
  end.

(** the statements [execute] acts on *)
Definition executed (s : stmt) : bool :=
  match s with
  | SAssign _ _ | SPrint _ => true
  | _ => false
  end.

(** the table after the names of [var_list] were entered one by one *)
Definition entered (var_list : list string) (symbol_table : gmap string string)
    : gmap string string :=
  foldl (fun m var => <[var := "int"]> m) symbol_table var_list.

(** 3.5 as a binary64: 7 * 2^50 * 2^(-51) *)
Definition float_3_5 : spec_float := S754_finite false 7881299347898368 (-51).

(** a / b as the parser of the richer grammar builds it *)
Definition div (a b : pyobj) : pyobj := PTuple [PStr "/"; a; b].

(** The programs of the scenarios, as ASTs; a sum or a quotient on the
    right of an assignment is the tuple (op, left, right) that [eval_expr]
    expects. *)

(** int x, y; x = 5; y = x + 2; print(y); *)
Definition sum_program : list stmt :=
  [ SDecl ["x"; "y"]; SAssign "x" (PInt 5);
    SAssign "y" (PTuple [PStr "+"; PStr "x"; PInt 2]); SPrint "y" ].

(** int a; a = 10 / 0; *)
Definition div_by_zero_program : list stmt :=
  [SDecl ["a"]; SAssign "a" (div (PInt 10) (PInt 0))].

(** int x; print(x);  (for the grammar of TP4.py: int x; print x;) *)
Definition print_default_program : list stmt := [SDecl ["x"]; SPrint "x"].

(** int x; int x; *)
Definition redeclaration_program : list stmt := [SDecl ["x"]; SDecl ["x"]].

(** y = 3; *)
Definition undeclared_program : list stmt := [SAssign "y" (PInt 3)].

(** int x; x = y; *)
Definition undeclared_rhs_program : list stmt := [SDecl ["x"]; SAssign "x" (PStr "y")].

(** int i; i = 0; while (i < 3) { print(i); i = i + 1; } with the loop as
    a tuple of its own: a tag, the condition and the list of the body's
    statements. *)
Definition while_node : stmt :=
  SOther "while"
    [ PTuple [PStr "<"; PStr "i"; PInt 3];
      PList [ PTuple [PStr "print"; PStr "i"];
              PTuple [PStr "assign"; PStr "i"; PTuple [PStr "+"; PStr "i"; PInt 1]] ] ].

Definition while_program : list stmt :=
  [SDecl ["i"]; SAssign "i" (PInt 0); while_node].

End Programs.

(** ** Notions for the properties of the evaluator and of the analysis *)

Module Shapes.
Import Py TP4.

Definition is_int (v : pyobj) : bool :=
  match v with
  | PInt _ => true
  | _ => false
  end.

(** Expressions made of int literals, names and the operators + - *, each
    operation being a tuple (op, left, right). *)
Fixpoint is_arith (e : pyobj) : bool :=
  match e with
  | PInt _ | PStr _ => true
  | PTuple [PStr op; e1; e2] =>
      bool_decide (op ∈ ["+"; "-"; "*"]) && is_arith e1 && is_arith e2
  | _ => false
  end.

(** statements whose expression, if they have one, is of that kind *)
Definition arith_stmt (s : stmt) : bool :=
  match s with
  | SAssign _ expr => is_arith expr
  | _ => true
  end.

Definition is_print (s : stmt) : bool :=
  match s with
  | SPrint _ => true
  | _ => false
  end.

(** a runtime environment that holds ints only *)
Definition ints_only (runtime : gmap string pyobj) : Prop :=
  map_Forall (fun _ v => is_int v = true) runtime.

(** sys.int_info.default_max_str_digits: since CPython 3.11, int() of a text
    with more digits raises ValueError, and so does the conversion of an int
    with more digits to its text. *)
Definition max_str_digits : nat := 4300.




End Shapes.

(** ** Notions for the properties of the lexical phase *)

Module LexShapes.
Import Py PrgPythonPur.

(** A token whose text is not empty and is matched in full by the pattern
    that [token_specification] gives for its kind. *)
Definition well_matched (t : string * string) : Prop :=
  t.2 <> ""
  /\ exists p, (t.1, p) ∈ token_specification
               /\ match_length p (list_ascii_of_string t.2)
                  = Some (length (list_ascii_of_string t.2)).

(** the characters of a list of tokens, in order *)
Definition characters (ts : list (string * string)) : list ascii :=
  concat ((fun t => list_ascii_of_string t.2) <$> ts).

End LexShapes.

(** ** prgPythonPur.py: the parsing loop, the semantic check and the
       execution *)

From stdpp Require pretty.

Module PurScript.
Import Py PrgPythonPur.

(** What this part of the script can raise: IndexError, ValueError (int()
    of a text that is no number), KeyError, AttributeError (split on an
    object that is no string) and the Exception of [semantic_check],
    "Erreur sémantique : variable {var} non déclarée". *)
Inductive error : Type :=
  | Index
  | Value
  | Key (key : string)
  | Attribute
  | Semantic (var : string).

(** A statement of the AST is a tuple of two items: a label and the list
    of its children, which are strings or expression tuples. *)
Definition node : Type := string * list pyobj.

(** *** The parsing loop *)

Record pstate : Type := PState {
  pos : nat;
  symbol_table : gmap string string;
  ast : list node
}.

(** The loop [while tokens[i][0] != 'SEMICOLON'] of a declaration, on the
    tokens from position i on: the texts of the ID tokens met and the
    number of tokens passed; [None] when the tokens run out before a
    SEMICOLON (IndexError). *)
Fixpoint decl_names (ts : list (string * string)) : option (list string * nat) :=
  match ts with
  | [] => None
  | (kind, text) :: ts' =>
      if bool_decide (kind = "SEMICOLON") then Some ([], O)
      else
        match decl_names ts' with
        | None => None
        | Some (vars_list, n) =>
            Some (if bool_decide (kind = "ID") then text :: vars_list else vars_list, S n)
        end
  end.

Definition decl_node (vars_list : list string) : node :=
  ("Decl (L-attribué)", (fun v => PStr ("Var: " +:+ v +:+ " (type=int)")) <$> vars_list).

Definition sum_expr (left_val : string) (right_val : Z) : pyobj :=
  PTuple [PStr "Expr: +";
          PList [PStr ("Var: " +:+ left_val); PStr ("Const: " +:+ pretty.pretty right_val)]].

Definition plain_expr (left_val : string) : pyobj :=
  PTuple [PStr "Expr";
          PList [PStr (if isdigit left_val then "Const: " +:+ left_val
                       else "Var: " +:+ left_val)]].

Definition assign_node (var_name : string) (expr : pyobj) : node :=
  ("Assign (S-attribué)", [PStr ("Var: " +:+ var_name); expr]).

Definition print_node (var_name : string) : node :=
  ("Print (S-attribué)", [PStr ("Var: " +:+ var_name)]).

Inductive outcome : Type :=
  | Done
  | Next (st : pstate)
  | Fail (e : error).

(** One turn of [while i < len(tokens)]: the loop is over, or goes on from
    a new state, or an exception is raised.  A token that is neither INT
    nor ID nor PRINT takes none of the branches, and the state stays as it
    is. *)
Definition parse_step (tokens : list (string * string)) (st : pstate) : outcome :=
  match tokens !! pos st with
  | None => Done
  | Some (tok, val) =>
      if bool_decide (tok = "INT") then
        match decl_names (drop (S (pos st)) tokens) with
        | None => Fail Index
        | Some (vars_list, n) =>
            Next (PState (pos st + 1 + n + 1)
                         (foldl (fun m v => <[v := "int"]> m) (symbol_table st) vars_list)
                         (ast st ++ [decl_node vars_list]))
        end
      else if bool_decide (tok = "ID") then
        match tokens !! (pos st + 2)%nat with
        | None => Fail Index
        | Some (_, left_val) =>
            match tokens !! (pos st + 3)%nat with
            | Some ("PLUS", _) =>
                match tokens !! (pos st + 4)%nat with
                | None => Fail Index
                | Some (_, text) =>
                    match py_int text with
                    | None => Fail Value
                    | Some right_val =>
                        Next (PState (pos st + 5) (symbol_table st)
                                (ast st ++ [assign_node val (sum_expr left_val right_val)]))
                    end
                end
            | _ =>
                Next (PState (pos st + 3) (symbol_table st)
                        (ast st ++ [assign_node val (plain_expr left_val)]))
            end
        end
      else if bool_decide (tok = "PRINT") then
        match tokens !! (pos st + 2)%nat with
        | None => Fail Index
        | Some (_, var_name) =>
            Next (PState (pos st + 4) (symbol_table st) (ast st ++ [print_node var_name]))
        end
      else Next st
  end.

(** The loop, for at most [fuel] turns: [None] when it is still running
    after them. *)
Fixpoint parse_from (fuel : nat) (tokens : list (string * string)) (st : pstate)
    : option (error + gmap string string * list node) :=
  match fuel with
  | O => None
  | S fuel' =>
      match parse_step tokens st with
      | Done => Some (inr (symbol_table st, ast st))
      | Fail e => Some (inl e)
      | Next st' => parse_from fuel' tokens st'
      end
  end.

(** symbol_table = {}, ast = [], i = 0 *)
Definition parse (fuel : nat) (tokens : list (string * string))
    : option (error + gmap string string * list node) :=
  parse_from fuel tokens (PState 0 ∅ []).

(** *** Names in labels *)

(** s.split(sep) for a separator that is not empty; [skip] counts the
    characters of the separator still to be passed. *)
Fixpoint split_go (sep : list ascii) (skip : nat) (cs : list ascii) : list (list ascii) :=
  match cs with
  | [] => [[]]
  | c :: cs' =>
      match skip with
      | S k => split_go sep k cs'
      | O =>
          if is_prefix sep cs then [] :: split_go sep (Nat.pred (length sep)) cs'
          else
            match split_go sep O cs' with
            | part :: parts => (c :: part) :: parts
            | [] => [[c]]
            end
      end
  end.

Definition split (sep s : string) : list string :=
  string_of_list_ascii <$> split_go (list_ascii_of_string sep) O (list_ascii_of_string s).

Definition startswith (s prefix : string) : bool :=
  is_prefix (list_ascii_of_string prefix) (list_ascii_of_string s).

(** stmt[1][0].split(': ')[1] *)
Definition name_of (children : list pyobj) : error + string :=
  match children with
  | [] => inl Index
  | PStr s :: _ =>
      match split ": " s with
      | _ :: var :: _ => inr var
      | _ => inl Index
      end
  | _ :: _ => inl Attribute
  end.

(** *** semantic_check *)

Fixpoint semantic_check_from (ast : list node) (symbol_table : gmap string string)
    (new_ast : list node) : error + list node :=
  match ast with
  | [] => inr new_ast
  | stmt :: ast' =>
      if startswith stmt.1 "Decl" then
        semantic_check_from ast' symbol_table (new_ast ++ [stmt])
      else if startswith stmt.1 "Assign" || startswith stmt.1 "Print" then
        match name_of stmt.2 with
        | inl e => inl e
        | inr var =>
            match symbol_table !! var with
            | None => inl (Semantic var)
            | Some _ => semantic_check_from ast' symbol_table (new_ast ++ [stmt])
            end
        end
      else semantic_check_from ast' symbol_table new_ast
  end.

Definition semantic_check (ast : list node) (symbol_table : gmap string string)
    : error + list node :=
  semantic_check_from ast symbol_table [].

(** *** execute *)

(** The loop of [execute] on the runtime it starts with, which it never
    gets to change: an assignment raises IndexError at [stmt[2]], its
    statement having two items only.  What was printed, and the exception
    that ended the loop, if any; a printed [None] is Python's None. *)
Fixpoint execute_from (ast : list node) (runtime : gmap string (option pyobj))
    (printed : list (option pyobj)) : list (option pyobj) * option error :=
  match ast with
  | [] => (printed, None)
  | stmt :: ast' =>
      if startswith stmt.1 "Assign" then
        match name_of stmt.2 with
        | inl e => (printed, Some e)
        | inr _ => (printed, Some Index)
        end
      else if startswith stmt.1 "Print" then
        match name_of stmt.2 with
        | inl e => (printed, Some e)
        | inr var =>
            match runtime !! var with
            | None => (printed, Some (Key var))
            | Some value => execute_from ast' runtime (printed ++ [value])
            end
        end
      else execute_from ast' runtime printed
  end.

Definition execute (ast : list node) (symbol_table : gmap string string)
    : list (option pyobj) * option error :=
  execute_from ast (initial_runtime symbol_table) [].

End PurScript.

(** ** Notions for the properties of the script prgPythonPur.py *)

Module PurShapes.
Import Py PrgPythonPur PurScript.

(** the source text the script holds *)
Definition code_source : string := "
int x, y;
x = 5;
y = x + 2;
print(y);
".

(** the tokens of a declaration with the tokens [body] between the keyword
    and the semicolon *)
Definition declaration (body : list (string * string)) : list (string * string) :=
  ("INT", "int") :: body ++ [("SEMICOLON", ";")].

(** the texts of the ID tokens *)
Definition ids (body : list (string * string)) : list string :=
  (filter (fun t => t.1 = "ID") body).*2.

(** the statements [semantic_check] copies *)
Definition known (stmt : node) : bool :=
  startswith stmt.1 "Decl" || startswith stmt.1 "Assign" || startswith stmt.1 "Print".

(** the statements in which [semantic_check] looks for a name *)
Definition names_a_variable (stmt : node) : bool :=
  negb (startswith stmt.1 "Decl")
  && (startswith stmt.1 "Assign" || startswith stmt.1 "Print").

(** the state with its position moved on by [n] tokens *)
Definition shift (n : nat) (st : pstate) : pstate :=
  PState (n + pos st) (symbol_table st) (ast st).

End PurShapes.

(** ** The evaluator of TP4.py *)

Module Evaluator.
Import Py TP4 Programs.

Lemma py_ne0_false (v : pyobj) :
  py_ne0 v = false <-> v = PInt 0 \/ exists s, v = PFloat (S754_zero s).
Proof.
  split.
  - destruct v as [n|f| | |]; simpl; try discriminate.
    + intros H. left. apply negb_false_iff, Z.eqb_eq in H. by subst.
    + destruct f; simpl; try discriminate. intros _. right. by eexists.
  - intros [->|[s ->]]; reflexivity.
Qed.

(** What [eval_expr] does on a tuple of three items or more. *)
Lemma eval_expr_binary runtime op e1 e2 rest v1 v2 :
  eval_expr runtime e1 = Ok v1 ->
  eval_expr runtime e2 = Ok v2 ->
  eval_expr runtime (PTuple (op :: e1 :: e2 :: rest)) =
    if is_str op "+" then py_add v1 v2
    else if is_str op "-" then py_sub v1 v2
    else if is_str op "*" then py_mul v1 v2
    else if is_str op "/"
         then (if py_ne0 v2 then py_truediv v1 v2 else Ok (PInt 0))
         else Ok (PTuple (op :: e1 :: e2 :: rest)).
Proof. intros H1 H2. cbn [eval_expr]. rewrite H1, H2. reflexivity. Qed.

Example sum_program_prints_7 : analyse_and_execute sum_program = ([PInt 7], None).
Proof. reflexivity. Qed.

(** An int literal or a name never raises. *)
Lemma eval_expr_atom runtime (e : pyobj) :
  (exists n, e = PInt n) \/ (exists s, e = PStr s) ->
  exists v, eval_expr runtime e = Ok v.
Proof.
  intros [[n ->]|[s ->]]; simpl; [by eexists|].
  destruct (runtime !! s); [by eexists|]. destruct (py_int s); by eexists.
Qed.

(** C1: when the right operand of a division evaluates to 0 (the int 0, or
    a float zero, for which [right != 0] is false as well), [eval_expr]
    returns the int 0 and raises nothing; the left operand has been
    evaluated before, so it has a value.  Executing "int a; a = 10 / 0;"
    ends without an exception and with a bound to the int 0. *)
Theorem C1_division_by_zero_yields_zero :
  (forall runtime e1 e2 rest v1 v2,
      eval_expr runtime e1 = Ok v1 ->
      eval_expr runtime e2 = Ok v2 ->
      py_ne0 v2 = false ->
      eval_expr runtime (PTuple (PStr "/" :: e1 :: e2 :: rest)) = Ok (PInt 0))
  /\ (let '(symbol_table, checked) := analyse div_by_zero_program in
      checked = Ok div_by_zero_program
      /\ (execute div_by_zero_program symbol_table).2 = None
      /\ runtime (execute div_by_zero_program symbol_table).1 !! "a" = Some (PInt 0)).
Proof.
  split.
  - intros rt e1 e2 rest v1 v2 H1 H2 Hz.
    rewrite (eval_expr_binary _ _ _ _ _ _ _ H1 H2). simpl. by rewrite Hz.
  - vm_compute. done.
Qed.

Lemma C1_division_by_zero_witness :
  eval_expr ∅ (PTuple [PStr "/"; PInt 10; PInt 0]) = Ok (PInt 0).
Proof.
  exact (proj1 C1_division_by_zero_yields_zero ∅ (PInt 10) (PInt 0) [] (PInt 10) (PInt 0)
           eq_refl eq_refl eq_refl).
Defined.

Remark float_3_5_is_7_halves : float_3_5 = S754_finite false (7 * 2 ^ 50) (-51).
Proof. reflexivity. Qed.

Lemma int_truediv_float (l r : Z) :
  r <> 0 ->
  (exists f, int_truediv l r = Ok (PFloat f)) \/ int_truediv l r = Raise OverflowError.
Proof.
  intros Hr. unfold int_truediv.
  destruct (Z.eqb_spec r 0) as [|_]; [done|].
  destruct (l =? 0); [left; by eexists|].
  destruct (SFdiv_core_binary _ _ _ _ _ _) as [[mz ez] lz].
  destruct (binary_round_aux _ _ _ _ _ _); first [left; by eexists | by right].
Qed.

(** C4: on two ints, of which the right one is not 0, the / of [eval_expr]
    is Python 3's true division: the value is a float, never an int (or
    OverflowError is raised, when the quotient is too large for a float);
    7 / 2 evaluates to the float 3.5 and not to the int 3. *)
Theorem C4_division_of_ints_is_true_division :
  (forall runtime l r,
      r <> 0 ->
      eval_expr runtime (div (PInt l) (PInt r)) = int_truediv l r
      /\ ((exists f, eval_expr runtime (div (PInt l) (PInt r)) = Ok (PFloat f))
          \/ eval_expr runtime (div (PInt l) (PInt r)) = Raise OverflowError)
      /\ forall n, eval_expr runtime (div (PInt l) (PInt r)) <> Ok (PInt n))
  /\ eval_expr ∅ (div (PInt 7) (PInt 2)) = Ok (PFloat float_3_5)
  /\ eval_expr ∅ (div (PInt 7) (PInt 2)) <> Ok (PInt 3).
Proof.
  split; [|split; [reflexivity | discriminate]].
  intros rt l r Hr.
  assert (He : eval_expr rt (div (PInt l) (PInt r)) = int_truediv l r).
  { unfold div. rewrite (eval_expr_binary _ _ _ _ _ (PInt l) (PInt r)) by reflexivity.
    simpl. destruct (Z.eqb_spec r 0); [done|reflexivity]. }
  rewrite He. split; [reflexivity|]. split; [by apply int_truediv_float|].
  intros n. destruct (int_truediv_float l r Hr) as [[f ->]| ->]; discriminate.
Qed.

Lemma C4_division_of_ints_witness :
  eval_expr ∅ (div (PInt 6) (PInt 3)) <> Ok (PInt 2).
Proof.
  refine (proj2 (proj2 (proj1 C4_division_of_ints_is_true_division ∅ 6 3 _)) 2).
  discriminate.
Defined.

(** *** The runtime environment *)

Lemma initial_runtime_lookup (symbol_table : gmap string string) var :
  is_Some (symbol_table !! var) -> initial_runtime symbol_table !! var = Some (PInt 0).
Proof. intros [t Ht]. unfold initial_runtime. by rewrite lookup_fmap, Ht. Qed.

Lemma exec_stmt_dom (rt rt' : gmap string pyobj) s printed :
  exec_stmt rt s = Ok (rt', printed) -> dom rt' = dom rt.
Proof.
  destruct s as [vars|var e|var|tag rest]; cbn -[eval_expr]; try (by intros [= <- _]).
  - destruct (eval_expr rt e) as [val|]; cbn; [|discriminate].
    destruct (rt !! var) eqn:Hvar; intros [= <- _]; [|done].
    by apply dom_insert_lookup_L.
  - destruct (eval_expr rt (PStr var)); cbn; [|discriminate]. by intros [= <- _].
Qed.

Lemma exec_stmt_other (rt rt' : gmap string pyobj) s printed name :
  exec_stmt rt s = Ok (rt', printed) -> target s <> Some name -> rt' !! name = rt !! name.
Proof.
  destruct s as [vars|var e|var|tag rest]; cbn -[eval_expr]; try (by intros [= <- _]).
  - destruct (eval_expr rt e) as [val|]; cbn; [|discriminate].
    destruct (rt !! var) eqn:Hvar; intros [= <- _] Hne; [|done].
    apply lookup_insert_ne. congruence.
  - destruct (eval_expr rt (PStr var)); cbn; [|discriminate]. by intros [= <- _].
Qed.

Lemma states_dom ast st :
  Forall (fun st' => dom (runtime st') = dom (runtime st)) (states ast st).
Proof.
  revert st. induction ast as [|s ast IH]; intros st; simpl.
  - by constructor.
  - constructor; [done|].
    destruct (exec_stmt (runtime st) s) as [[rt' printed]|] eqn:He; [|constructor].
    apply exec_stmt_dom in He. specialize (IH (State rt' (output st ++ printed))).
    simpl in IH. rewrite He in IH. exact IH.
Qed.

Lemma states_head ast st : exists later, states ast st = st :: later.
Proof. destruct ast; eexists; reflexivity. Qed.

(** The state [run] ends in is the last of [states]. *)
Lemma states_last ast st : last (states ast st) = Some (run ast st).1.
Proof.
  revert st. induction ast as [|s ast IH]; intros st; [done|].
  cbn [states run].
  destruct (exec_stmt (runtime st) s) as [[rt' printed]|]; [|done].
  rewrite <- IH.
  destruct (states_head ast (State rt' (output st ++ printed))) as [later ->].
  reflexivity.
Qed.

Lemma run_untouched ast st name :
  Forall (fun s => target s <> Some name) ast ->
  runtime (run ast st).1 !! name = runtime st !! name.
Proof.
  intros Hall. revert st. induction Hall as [|s ast Hs _ IH]; intros st; simpl; [done|].
  destruct (exec_stmt (runtime st) s) as [[rt' printed]|] eqn:He; [|done].
  rewrite IH. simpl. by eapply exec_stmt_other.
Qed.

Lemma run_dom ast st : dom (runtime (run ast st).1) = dom (runtime st).
Proof.
  pose proof (states_dom ast st) as Hall.
  rewrite Forall_forall in Hall. apply Hall.
  eapply last_Some_elem_of, states_last.
Qed.

(** C3, on the code.  In TP4.py every name of the symbol table starts in the
    runtime environment with the int 0, and keeps it as long as no
    assignment to it is executed: after any program without such an
    assignment (run to its end or to the statement that raises) its value is
    still the int 0, and that is what reading the name yields; the AST of
    "int x; print(x);" prints 0.  The [execute] of prgPythonPur.py starts
    every name of the symbol table with None instead: run on the source text
    "int x; print(x)" the script parses and checks the program and prints
    None. *)
Theorem C3_declared_variables_start_at_zero_or_None :
  (forall (symbol_table : gmap string string) var,
      is_Some (symbol_table !! var) ->
      initial_runtime symbol_table !! var = Some (PInt 0)
      /\ PrgPythonPur.initial_runtime symbol_table !! var = Some None)
  /\ (forall (symbol_table : gmap string string) ast var,
        is_Some (symbol_table !! var) ->
        Forall (fun s => target s <> Some var) ast ->
        runtime (execute ast symbol_table).1 !! var = Some (PInt 0)
        /\ eval_expr (runtime (execute ast symbol_table).1) (PStr var) = Ok (PInt 0))
  /\ analyse_and_execute print_default_program = ([PInt 0], None)
  /\ PurScript.parse 3 (PrgPythonPur.tokens "int x; print(x)")
     = Some (inr ({["x" := "int"]},
                  [PurScript.decl_node ["x"]; PurScript.print_node "x"]))
  /\ PurScript.semantic_check [PurScript.decl_node ["x"]; PurScript.print_node "x"]
                              {["x" := "int"]}
     = inr [PurScript.decl_node ["x"]; PurScript.print_node "x"]
  /\ PurScript.execute [PurScript.decl_node ["x"]; PurScript.print_node "x"]
                       {["x" := "int"]}
     = ([None], None).
Proof.
  split.
  { intros symbol_table var Hdecl. split; [by apply initial_runtime_lookup|].
    destruct Hdecl as [t Ht]. unfold PrgPythonPur.initial_runtime.
    by rewrite lookup_fmap, Ht. }
  split; [|by repeat split].
  intros symbol_table ast var Hdecl Hall.
  assert (Hv : runtime (execute ast symbol_table).1 !! var = Some (PInt 0)).
  { unfold execute. rewrite run_untouched by done. simpl.
    by apply initial_runtime_lookup. }
  split; [done|]. cbn [eval_expr]. by rewrite Hv.
Qed.

Lemma C3_declared_variables_witness :
  runtime (execute [SAssign "y" (PInt 4); SPrint "x"] {["x" := "int"; "y" := "int"]}).1 !! "x"
  = Some (PInt 0).
Proof.
  refine (proj1 (proj1 (proj2 C3_declared_variables_start_at_zero_or_None)
            {["x" := "int"; "y" := "int"]} [SAssign "y" (PInt 4); SPrint "x"] "x" _ _)).
  - by eexists.
  - repeat constructor; discriminate.
Defined.

(** C9: in every state of an execution (the initial one, and the one after
    each executed statement) the keys of the runtime environment are the
    keys of the symbol table [execute] was given; so are they in the state
    the execution ends in. *)
Theorem C9_runtime_keys_are_symbol_table_keys :
  forall (symbol_table : gmap string string) (ast : list stmt),
    Forall (fun st => dom (runtime st) = dom symbol_table)
           (states ast (State (initial_runtime symbol_table) []))
    /\ dom (runtime (execute ast symbol_table).1) = dom symbol_table.
Proof.
  intros symbol_table ast.
  assert (Hinit : dom (initial_runtime symbol_table) = dom symbol_table)
    by apply dom_fmap_L.
  split.
  - rewrite <- Hinit. apply (states_dom ast (State (initial_runtime symbol_table) [])).
  - unfold execute. by rewrite run_dom.
Qed.

(** C10: an assignment that ends without an exception prints nothing and
    leaves the value of every name other than its target as it was; when the
    target is not a key of the runtime environment and the right-hand side
    has a value, the environment is left as it was and nothing is raised.
    The statement raises exactly what the evaluation of its right-hand side
    raises, which is nothing for an int literal or a name. *)
Theorem C10_assignment_changes_only_its_target :
  forall (rt : gmap string pyobj) var expr,
    (forall rt' printed,
        exec_stmt rt (SAssign var expr) = Ok (rt', printed) ->
        printed = [] /\ forall name, name <> var -> rt' !! name = rt !! name)
    /\ (rt !! var = None ->
        forall val, eval_expr rt expr = Ok val ->
                    exec_stmt rt (SAssign var expr) = Ok (rt, []))
    /\ raised (exec_stmt rt (SAssign var expr)) = raised (eval_expr rt expr)
    /\ ((exists n, expr = PInt n) \/ (exists s, expr = PStr s) ->
        raised (exec_stmt rt (SAssign var expr)) = None).
Proof.
  intros rt var expr.
  assert (Hraise : raised (exec_stmt rt (SAssign var expr)) = raised (eval_expr rt expr)).
  { cbn -[eval_expr]. destruct (eval_expr rt expr); cbn; [|done]. by destruct (rt !! var). }
  split; [|split; [|split; [exact Hraise|]]].
  - intros rt' printed Hexec. split.
    + revert Hexec. cbn -[eval_expr]. destruct (eval_expr rt expr); cbn; [|discriminate].
      by destruct (rt !! var); intros [= _ <-].
    + intros name Hne. eapply exec_stmt_other; [exact Hexec|]. simpl. congruence.
  - intros Hvar val Hval. cbn -[eval_expr]. rewrite Hval. cbn. by rewrite Hvar.
  - intros Hatom. rewrite Hraise.
    destruct (eval_expr_atom rt expr Hatom) as [v ->]. reflexivity.
Qed.

Lemma C10_assignment_witness :
  exec_stmt {["x" := PInt 1]} (SAssign "z" (PInt 5)) = Ok ({["x" := PInt 1]}, []).
Proof.
  refine (proj1 (proj2 (C10_assignment_changes_only_its_target
            {["x" := PInt 1]} "z" (PInt 5))) _ (PInt 5) _); reflexivity.
Defined.

Lemma run_output_nil ast rt out :
  run ast (State rt (out ++ [])) = run ast (State rt out).
Proof. by rewrite app_nil_r. Qed.

Lemma run_executed ast st : run (filter executed ast) st = run ast st.
Proof.
  revert st. induction ast as [|s ast IH]; intros [rt out]; [done|].
  destruct s as [vars|var e|var|tag rest].
  - change (run (filter executed ast) (State rt out)
            = run ast (State rt (out ++ []))).
    by rewrite run_output_nil.
  - change (filter executed (SAssign var e :: ast))
      with (SAssign var e :: filter executed ast).
    cbn [run]. destruct (exec_stmt _ _) as [[rt' printed]|]; [apply IH|done].
  - change (filter executed (SPrint var :: ast))
      with (SPrint var :: filter executed ast).
    cbn [run]. destruct (exec_stmt _ _) as [[rt' printed]|]; [apply IH|done].
  - change (run (filter executed ast) (State rt out)
            = run ast (State rt (out ++ []))).
    by rewrite run_output_nil.
Qed.

(** C6, as the code has it: [execute] passes over every statement that is
    neither an assignment nor a print, a while node included: nothing of it
    is evaluated, the runtime environment stays as it is and nothing is
    printed, so that a program runs as it does without these statements;
    [check] does not even copy such a statement to the AST it returns.  On
    "int i; i = 0; while (i < 3) { print(i); i = i + 1; }" execution ends
    without output and with i bound to 0. *)
Theorem C6_other_statements_are_skipped :
  (forall (rt : gmap string pyobj) tag rest,
      exec_stmt rt (SOther tag rest) = Ok (rt, []))
  /\ (forall ast (symbol_table : gmap string string),
        execute (filter executed ast) symbol_table = execute ast symbol_table)
  /\ (forall ast_list (symbol_table : gmap string string) new_ast tag rest,
        check_from (SOther tag rest :: ast_list) symbol_table new_ast
        = check_from ast_list symbol_table new_ast)
  /\ output (execute while_program {["i" := "int"]}).1 = []
  /\ (execute while_program {["i" := "int"]}).2 = None
  /\ runtime (execute while_program {["i" := "int"]}).1 !! "i" = Some (PInt 0)
  /\ analyse_and_execute while_program = ([], None).
Proof.
  split; [reflexivity|]. split; [|by repeat split].
  intros ast symbol_table. apply run_executed.
Qed.

(** C6, counterexample: the program of the scenario does not print 0, 1, 2:
    neither when its AST is executed as it is, nor through analysis and
    execution. *)
Lemma C6_while_program_prints_nothing :
  output (execute while_program {["i" := "int"]}).1 <> [PInt 0; PInt 1; PInt 2]
  /\ (analyse_and_execute while_program).1 <> [PInt 0; PInt 1; PInt 2].
Proof. split; discriminate. Qed.

End Evaluator.

(** ** The semantic analysis of TP4.py *)

Module Semantics.
Import Py TP4 Programs.

Lemma entered_cons var var_list (symbol_table : gmap string string) :
  entered (var :: var_list) symbol_table
  = entered var_list (<[var := "int"]> symbol_table).
Proof. reflexivity. Qed.

Lemma entered_lookup_other var_list (symbol_table : gmap string string) name :
  name ∉ var_list -> entered var_list symbol_table !! name = symbol_table !! name.
Proof.
  revert symbol_table. induction var_list as [|var var_list IH]; intros st Hnot; [done|].
  apply not_elem_of_cons in Hnot as [Hne Hnot].
  rewrite entered_cons, IH by done. by apply lookup_insert_ne.
Qed.

Lemma entered_lookup var_list (symbol_table : gmap string string) name :
  name ∈ var_list -> entered var_list symbol_table !! name = Some "int".
Proof.
  revert symbol_table. induction var_list as [|var var_list IH]; intros st Hin.
  - by apply elem_of_nil in Hin.
  - rewrite entered_cons. destruct (decide (name ∈ var_list)) as [Hlater|Hnot].
    + by apply IH.
    + apply elem_of_cons in Hin as [->|Hin]; [|done].
      rewrite entered_lookup_other by done. apply lookup_insert_eq.
Qed.

(** A list of fresh, distinct names is entered whole. *)
Lemma declare_fresh var_list (symbol_table : gmap string string) :
  NoDup var_list ->
  (forall var, var ∈ var_list -> symbol_table !! var = None) ->
  declare var_list symbol_table = (entered var_list symbol_table, None).
Proof.
  intros Hnd. revert symbol_table.
  induction Hnd as [|var var_list Hnot _ IH]; intros st Hfresh; [done|].
  cbn [declare]. rewrite (Hfresh var) by apply list_elem_of_here.
  rewrite entered_cons. apply IH. intros w Hw.
  rewrite lookup_insert_ne by (intros ->; done).
  apply Hfresh. by apply list_elem_of_further.
Qed.

(** The loop stops at the first name that is in the table when its turn
    comes: one that was there before, or one entered earlier in the same
    declaration. *)
Lemma declare_stops before var after (symbol_table : gmap string string) :
  NoDup before ->
  (forall w, w ∈ before -> symbol_table !! w = None) ->
  is_Some (symbol_table !! var) \/ var ∈ before ->
  declare (before ++ var :: after) symbol_table
  = (entered before symbol_table, Some (Redeclared var)).
Proof.
  intros Hnd. revert symbol_table.
  induction Hnd as [|w before Hnot _ IH]; intros st Hfresh Hvar.
  - destruct Hvar as [[t Ht]|Hin]; [|by apply elem_of_nil in Hin].
    cbn. by rewrite Ht.
  - cbn [app declare]. rewrite (Hfresh w) by apply list_elem_of_here.
    rewrite entered_cons. apply IH.
    + intros u Hu. rewrite lookup_insert_ne by (intros ->; done).
      apply Hfresh. by apply list_elem_of_further.
    + destruct Hvar as [Hthere|Hin].
      * left. rewrite lookup_insert_is_Some. destruct (decide (w = var)); auto.
      * apply elem_of_cons in Hin as [->|Hin]; [|by right].
        left. rewrite lookup_insert_eq. by eexists.
Qed.

(** [declare] raises nothing but [Redeclared], for a name of the list. *)
Lemma declare_raises var_list (symbol_table symbol_table' : gmap string string) e :
  declare var_list symbol_table = (symbol_table', Some e) ->
  exists var, e = Redeclared var /\ var ∈ var_list.
Proof.
  revert symbol_table. induction var_list as [|var var_list IH]; intros st; [done|].
  cbn [declare]. destruct (st !! var).
  - intros [= _ <-]. exists var. split; [done|apply list_elem_of_here].
  - intros H. apply IH in H as (w & -> & Hw). exists w. split; [done|].
    by apply list_elem_of_further.
Qed.

(** C5: a declaration is processed name by name.  A name that is in the
    symbol table when its turn comes stops the analysis with Redeclared for
    that name; any other name is entered with the type "int" and the loop
    goes on.  So a declaration of fresh and distinct names enters them all,
    each with the type "int", and leaves the other entries alone; and the
    first name that was declared before, or earlier in the same
    declaration, raises Redeclared, the names before it having been
    entered.  "int x; int x;" fails with Redeclared "x". *)
Theorem C5_declaration_enters_or_rejects :
  (forall (symbol_table : gmap string string) var var_list,
      (is_Some (symbol_table !! var) ->
       declare (var :: var_list) symbol_table = (symbol_table, Some (Redeclared var)))
      /\ (symbol_table !! var = None ->
          declare (var :: var_list) symbol_table
          = declare var_list (<[var := "int"]> symbol_table)))
  /\ (forall (symbol_table : gmap string string) var_list,
        NoDup var_list ->
        (forall var, var ∈ var_list -> symbol_table !! var = None) ->
        exists symbol_table' : gmap string string,
          declare var_list symbol_table = (symbol_table', None)
          /\ (forall var, var ∈ var_list -> symbol_table' !! var = Some "int")
          /\ (forall name, name ∉ var_list -> symbol_table' !! name = symbol_table !! name))
  /\ (forall (symbol_table : gmap string string) before var after,
        NoDup before ->
        (forall w, w ∈ before -> symbol_table !! w = None) ->
        is_Some (symbol_table !! var) \/ var ∈ before ->
        (declare (before ++ var :: after) symbol_table).2 = Some (Redeclared var)
        /\ forall ast_list new_ast,
             (check_from (SDecl (before ++ var :: after) :: ast_list) symbol_table new_ast).2
             = Raise (Redeclared var))
  /\ (analyse redeclaration_program).2 = Raise (Redeclared "x").
Proof.
  split; [|split; [|split; [|reflexivity]]].
  - intros st var var_list. split.
    + intros [t Ht]. cbn. by rewrite Ht.
    + intros Hnone. cbn [declare]. by rewrite Hnone.
  - intros st var_list Hnd Hfresh. exists (entered var_list st).
    split; [by apply declare_fresh|]. split.
    + intros var Hin. by apply entered_lookup.
    + intros name Hnot. by apply entered_lookup_other.
  - intros st before var after Hnd Hfresh Hvar.
    pose proof (declare_stops before var after st Hnd Hfresh Hvar) as Hd.
    split; [by rewrite Hd|].
    intros ast_list new_ast. cbn [check_from]. by rewrite Hd.
Qed.

Lemma C5_declaration_witness :
  (declare (["y"; "x"] ++ "x" :: ["z"]) ∅).2 = Some (Redeclared "x").
Proof.
  refine (proj1 (proj1 (proj2 (proj2 C5_declaration_enters_or_rejects))
            ∅ ["y"; "x"] "x" ["z"] _ _ _)).
  - apply NoDup_cons. split; [by intros ?%list_elem_of_singleton|].
    apply NoDup_singleton.
  - intros w _. apply lookup_empty.
  - right. apply list_elem_of_further, list_elem_of_here.
Defined.

(** *** Names in expressions *)

(** The table and the exception of [check] do not depend on the statements
    already copied. *)
Lemma check_from_new_ast_irrelevant ast_list (symbol_table : gmap string string) acc acc' :
  (check_from ast_list symbol_table acc).1 = (check_from ast_list symbol_table acc').1
  /\ raised (check_from ast_list symbol_table acc).2
     = raised (check_from ast_list symbol_table acc').2.
Proof.
  revert symbol_table acc acc'.
  induction ast_list as [|s ast_list IH]; intros st acc acc'; [done|].
  destruct s as [vars|var e|var|tag rest]; cbn [check_from].
  - destruct (declare vars st) as [st' [e|]]; [done|apply IH].
  - destruct (st !! var); [apply IH|done].
  - destruct (st !! var); [apply IH|]. destruct (isdigit var); [apply IH|done].
  - apply IH.
Qed.

(** C2, on the code: [check] looks up the target of an assignment and the
    operand of a print, and never the expression of an assignment.  The
    target of "y = 3;" is reported as undeclared, but "int x; x = y;" passes
    the analysis although y is not in the symbol table, and is then executed
    with y read as 0; whatever the expression is, the table and the
    exception of the analysis are the same.  The check of
    analyse_minipython.py has a branch that looks up the left operand of an
    addition, but it is taken for a statement only: the same addition on the
    right of an assignment passes. *)
Theorem C2_expression_names_are_not_checked :
  (analyse undeclared_rhs_program).2 = Ok undeclared_rhs_program
  /\ (analyse undeclared_rhs_program).1 !! "y" = None
  /\ analyse_and_execute (undeclared_rhs_program ++ [SPrint "x"]) = ([PInt 0], None)
  /\ (forall (symbol_table : gmap string string) var expr expr' ast_list new_ast,
        (check_from (SAssign var expr :: ast_list) symbol_table new_ast).1
        = (check_from (SAssign var expr' :: ast_list) symbol_table new_ast).1
        /\ raised (check_from (SAssign var expr :: ast_list) symbol_table new_ast).2
           = raised (check_from (SAssign var expr' :: ast_list) symbol_table new_ast).2)
  /\ (forall (symbol_table : gmap string string) var expr ast_list new_ast,
        symbol_table !! var = None ->
        check_from (SAssign var expr :: ast_list) symbol_table new_ast
        = (symbol_table, Raise (UndeclaredVariable var)))
  /\ (analyse undeclared_program).2 = Raise (UndeclaredVariable "y")
  /\ (AnalyseMinipython.analyse
        [AnalyseMinipython.SDecl ["x"];
         AnalyseMinipython.SAdd (PStr "y") (PInt 2)]).2
     = Raise (UndeclaredVariable "y")
  /\ (AnalyseMinipython.analyse
        [AnalyseMinipython.SDecl ["x"];
         AnalyseMinipython.SAssign "x" (AnalyseMinipython.add (PStr "y") (PInt 2))]).2
     = Ok [AnalyseMinipython.SDecl ["x"];
           AnalyseMinipython.SAssign "x" (AnalyseMinipython.add (PStr "y") (PInt 2))].
Proof.
  split; [reflexivity|]. split; [reflexivity|]. split; [reflexivity|].
  split; [|split; [|by repeat split]].
  - intros st var expr expr' ast_list new_ast. cbn [check_from].
    destruct (st !! var); [|done]. apply check_from_new_ast_irrelevant.
  - intros st var expr ast_list new_ast Hnone. cbn [check_from]. by rewrite Hnone.
Qed.

Lemma C2_expression_names_witness :
  check_from [SAssign "y" (PInt 3)] ∅ [] = (∅, Raise (UndeclaredVariable "y")).
Proof.
  refine (proj1 (proj2 (proj2 (proj2 (proj2 C2_expression_names_are_not_checked))))
            ∅ "y" (PInt 3) [] [] _).
  apply lookup_empty.
Defined.

(** *** Running the analysis again *)

Lemma declare_grows var_list (symbol_table symbol_table' : gmap string string) o :
  declare var_list symbol_table = (symbol_table', o) ->
  forall name, is_Some (symbol_table !! name) -> is_Some (symbol_table' !! name).
Proof.
  revert symbol_table. induction var_list as [|var var_list IH]; intros st.
  - by intros [= <- _].
  - cbn [declare]. destruct (st !! var) eqn:Hvar; [by intros [= <- _]|].
    intros Hd name Hname. eapply IH; [exact Hd|].
    rewrite lookup_insert_is_Some. destruct (decide (var = name)); auto.
Qed.

Lemma declare_enters var_list (symbol_table symbol_table' : gmap string string) :
  declare var_list symbol_table = (symbol_table', None) ->
  forall var, var ∈ var_list -> is_Some (symbol_table' !! var).
Proof.
  revert symbol_table. induction var_list as [|w var_list IH]; intros st Hd var Hin.
  - by apply elem_of_nil in Hin.
  - cbn [declare] in Hd. destruct (st !! w) eqn:Hw; [discriminate|].
    apply elem_of_cons in Hin as [->|Hin]; [|by eapply IH].
    eapply declare_grows; [exact Hd|]. rewrite lookup_insert_eq. by eexists.
Qed.

Lemma check_from_grows ast_list (symbol_table symbol_table' : gmap string string) acc r :
  check_from ast_list symbol_table acc = (symbol_table', r) ->
  forall name, is_Some (symbol_table !! name) -> is_Some (symbol_table' !! name).
Proof.
  revert symbol_table acc.
  induction ast_list as [|s ast_list IH]; intros st acc; [by intros [= <- _]|].
  destruct s as [vars|var e|var|tag rest]; cbn [check_from].
  - destruct (declare vars st) as [stm [e|]] eqn:Hd.
    + intros [= <- _]. by eapply declare_grows.
    + intros Hc name Hname. eapply IH; [exact Hc|]. by eapply declare_grows.
  - destruct (st !! var); [apply IH|by intros [= <- _]].
  - destruct (st !! var); [apply IH|]. destruct (isdigit var); [apply IH|by intros [= <- _]].
  - apply IH.
Qed.

Lemma check_from_copies ast_list (symbol_table symbol_table' : gmap string string) acc new_ast :
  check_from ast_list symbol_table acc = (symbol_table', Ok new_ast) ->
  new_ast = acc ++ filter kept ast_list.
Proof.
  revert symbol_table acc.
  induction ast_list as [|s ast_list IH]; intros st acc.
  - intros [= _ <-]. by rewrite app_nil_r.
  - destruct s as [vars|var e|var|tag rest]; cbn [check_from].
    + destruct (declare vars st) as [stm [e|]]; [discriminate|].
      intros Hc. apply IH in Hc. by rewrite <- app_assoc in Hc.
    + destruct (st !! var); [|discriminate].
      intros Hc. apply IH in Hc. by rewrite <- app_assoc in Hc.
    + destruct (st !! var); [|destruct (isdigit var); [|discriminate]].
      all: intros Hc; apply IH in Hc; by rewrite <- app_assoc in Hc.
    + apply IH.
Qed.

(** A program that passed the analysis, analysed again with a table that
    has all the names of the first run: the table stays as it is, and the
    first declared name, if there is one, is reported. *)
Lemma check_from_again ast_list :
  forall (st0 st1 st' : gmap string string) acc0 acc' new_ast,
    check_from ast_list st0 acc0 = (st1, Ok new_ast) ->
    (forall name, is_Some (st1 !! name) -> is_Some (st' !! name)) ->
    check_from ast_list st' acc'
    = (st', match declared_names ast_list with
            | [] => Ok (acc' ++ filter kept ast_list)
            | var :: _ => Raise (Redeclared var)
            end).
Proof.
  induction ast_list as [|s ast_list IH]; intros st0 st1 st' acc0 acc' new_ast Hc Hsub.
  - cbn. by rewrite app_nil_r.
  - destruct s as [vars|var e|var|tag rest]; cbn [check_from] in Hc.
    + destruct (declare vars st0) as [stm [e|]] eqn:Hd; [discriminate|].
      destruct vars as [|var vars].
      * cbn. erewrite (IH _ _ st' _ (acc' ++ [SDecl []])) by eauto.
        by rewrite <- app_assoc.
      * assert (Hvar : is_Some (st' !! var)).
        { apply Hsub. eapply check_from_grows; [exact Hc|].
          eapply declare_enters; [exact Hd|]. apply list_elem_of_here. }
        destruct Hvar as [t Ht]. cbn. by rewrite Ht.
    + destruct (st0 !! var) eqn:Hvar; [|discriminate].
      assert (Hvar' : is_Some (st' !! var)).
      { apply Hsub. eapply check_from_grows; [exact Hc|]. by eexists. }
      destruct Hvar' as [t Ht]. cbn [check_from declared_names]. rewrite Ht.
      erewrite (IH _ _ st' _ (acc' ++ [SAssign var e])) by eauto.
      change (filter kept (SAssign var e :: ast_list))
        with (SAssign var e :: filter kept ast_list).
      by rewrite <- app_assoc.
    + assert (Hnext : check_from ast_list st0 (acc0 ++ [SPrint var]) = (st1, Ok new_ast)
                      /\ (is_Some (st0 !! var) \/ isdigit var = true)).
      { destruct (st0 !! var); [by eauto|]. destruct (isdigit var); [by eauto|discriminate]. }
      destruct Hnext as [Hc' Hwhy].
      assert (Hgo : check_from (SPrint var :: ast_list) st' acc'
                    = check_from ast_list st' (acc' ++ [SPrint var])).
      { cbn [check_from]. destruct (st' !! var) eqn:Ht; [done|].
        destruct Hwhy as [Hin| ->]; [|done].
        assert (Hvar' : is_Some (st' !! var)).
        { apply Hsub. by eapply check_from_grows. }
        rewrite Ht in Hvar'. by destruct Hvar'. }
      rewrite Hgo. cbn [declared_names].
      erewrite (IH _ _ st' _ (acc' ++ [SPrint var])) by eauto.
      change (filter kept (SPrint var :: ast_list))
        with (SPrint var :: filter kept ast_list).
      by rewrite <- app_assoc.
    + cbn [check_from declared_names]. by erewrite IH by eauto.
Qed.

Lemma entered_app before after (symbol_table : gmap string string) :
  entered (before ++ after) symbol_table = entered after (entered before symbol_table).
Proof. apply foldl_app. Qed.

Lemma declare_entered var_list (symbol_table symbol_table' : gmap string string) :
  declare var_list symbol_table = (symbol_table', None) ->
  symbol_table' = entered var_list symbol_table.
Proof.
  revert symbol_table. induction var_list as [|var var_list IH]; intros st.
  - by intros [= <-].
  - cbn [declare]. destruct (st !! var); [discriminate|]. apply IH.
Qed.

(** The table of a successful analysis is made of the declared names. *)
Lemma check_from_table ast_list (symbol_table symbol_table' : gmap string string) acc new_ast :
  check_from ast_list symbol_table acc = (symbol_table', Ok new_ast) ->
  symbol_table' = entered (declared_names ast_list) symbol_table.
Proof.
  revert symbol_table acc.
  induction ast_list as [|s ast_list IH]; intros st acc; [by intros [= <- _]|].
  destruct s as [vars|var e|var|tag rest]; cbn [check_from declared_names].
  - destruct (declare vars st) as [stm [e|]] eqn:Hd; [discriminate|].
    intros Hc. apply IH in Hc. apply declare_entered in Hd.
    by rewrite entered_app, <- Hd.
  - destruct (st !! var); [apply IH|discriminate].
  - destruct (st !! var); [apply IH|]. destruct (isdigit var); [apply IH|discriminate].
  - apply IH.
Qed.

(** The statements [check] returns are checked like the AST they come
    from. *)
Lemma check_from_kept ast_list (symbol_table : gmap string string) acc :
  check_from (filter kept ast_list) symbol_table acc = check_from ast_list symbol_table acc.
Proof.
  revert symbol_table acc. induction ast_list as [|s ast_list IH]; intros st acc; [done|].
  destruct s as [vars|var e|var|tag rest].
  - change (filter kept (SDecl vars :: ast_list)) with (SDecl vars :: filter kept ast_list).
    cbn [check_from]. destruct (declare vars st) as [stm [e|]]; [done|]. apply IH.
  - change (filter kept (SAssign var e :: ast_list))
      with (SAssign var e :: filter kept ast_list).
    cbn [check_from]. destruct (st !! var); [apply IH|done].
  - change (filter kept (SPrint var :: ast_list)) with (SPrint var :: filter kept ast_list).
    cbn [check_from]. destruct (st !! var); [apply IH|].
    destruct (isdigit var); [apply IH|done].
  - change (filter kept (SOther tag rest :: ast_list)) with (filter kept ast_list).
    cbn [check_from]. apply IH.
Qed.

(** Whether a declaration is passed or raises, its first name is in the
    table afterwards. *)
Lemma declare_first var var_list (symbol_table symbol_table' : gmap string string) o :
  declare (var :: var_list) symbol_table = (symbol_table', o) ->
  is_Some (symbol_table' !! var).
Proof.
  cbn [declare]. destruct (symbol_table !! var) eqn:Hv.
  - intros [= <- _]. by eexists.
  - intros Hd. eapply declare_grows; [exact Hd|]. rewrite lookup_insert_eq. by eexists.
Qed.

(** A second call of [check] on a table with the names the first call left:
    whether the first call returned or raised, the second one leaves the
    table as it finds it. *)
Lemma check_from_twice ast_list :
  forall (st0 st1 st' : gmap string string) acc0 acc' r,
    check_from ast_list st0 acc0 = (st1, r) ->
    (forall name, is_Some (st' !! name) <-> is_Some (st1 !! name)) ->
    (check_from ast_list st' acc').1 = st'.
Proof.
  induction ast_list as [|s ast_list IH]; intros st0 st1 st' acc0 acc' r Hc Hsame; [done|].
  destruct s as [vars|var e|var|tag rest]; cbn [check_from] in Hc |- *.
  - destruct vars as [|var vars].
    + cbn [declare] in Hc |- *. by eapply IH.
    + assert (Hvar : is_Some (st' !! var)).
      { apply Hsame. destruct (declare (var :: vars) st0) as [stm o] eqn:Hd.
        pose proof (declare_first _ _ _ _ _ Hd) as Hfirst.
        destruct o as [e|]; [by injection Hc as <- _|].
        by eapply check_from_grows. }
      destruct Hvar as [t Ht]. cbn [declare]. by rewrite Ht.
  - destruct (st0 !! var) eqn:Hv.
    + assert (Hvar : is_Some (st' !! var)).
      { apply Hsame. eapply check_from_grows; [exact Hc|]. by eexists. }
      destruct Hvar as [t Ht]. rewrite Ht. by eapply IH.
    + injection Hc as <- _. destruct (st' !! var) eqn:Ht; [|done].
      assert (Hvar : is_Some (st0 !! var)) by (apply Hsame; by eexists).
      rewrite Hv in Hvar. by destruct Hvar.
  - destruct (st0 !! var) eqn:Hv.
    + assert (Hvar : is_Some (st' !! var)).
      { apply Hsame. eapply check_from_grows; [exact Hc|]. by eexists. }
      destruct Hvar as [t Ht]. rewrite Ht. by eapply IH.
    + destruct (isdigit var).
      * destruct (st' !! var); by eapply IH.
      * injection Hc as <- _. destruct (st' !! var) eqn:Ht; [|done].
        assert (Hvar : is_Some (st0 !! var)) by (apply Hsame; by eexists).
        rewrite Hv in Hvar. by destruct Hvar.
  - by eapply IH.
Qed.

(** C8: every run of the pipeline analyses its AST with a new
    SemanticTransformer, that is with [analyse], whose symbol table and
    result depend on the AST alone.  A successful analysis yields the table
    of the declared names of the AST and the statements of the AST that
    [check] knows, and it is idempotent: the analysis of the AST it returned
    yields the same symbol table and the same AST again.  The symbol table
    is the same after a second call also when the transformer is used
    again: whether [check] returned or raised, a second call on the same
    transformer and the same AST leaves the symbol table as the first call
    left it. *)
Theorem C8_analysis_twice_yields_the_same_table :
  (forall ast_list (symbol_table : gmap string string) new_ast,
      analyse ast_list = (symbol_table, Ok new_ast) ->
      symbol_table = entered (declared_names ast_list) ∅
      /\ new_ast = filter kept ast_list
      /\ analyse new_ast = (symbol_table, Ok new_ast))
  /\ (forall (symbol_table : gmap string string) ast_list,
        (check (check symbol_table ast_list).1 ast_list).1
        = (check symbol_table ast_list).1).
Proof.
  split.
  - intros ast_list st new_ast Hc. unfold analyse, check in *.
    split; [by eapply check_from_table|].
    pose proof (check_from_copies _ _ _ _ _ Hc) as Hnew. cbn in Hnew.
    split; [done|]. by rewrite Hnew, check_from_kept, <- Hnew.
  - intros st ast_list. unfold check.
    destruct (check_from ast_list st []) as [st1 r] eqn:Hc.
    by eapply check_from_twice.
Qed.

Lemma C8_analysis_twice_witness :
  analyse [SDecl ["i"]; SAssign "i" (PInt 0)]
  = ({["i" := "int"]}, Ok [SDecl ["i"]; SAssign "i" (PInt 0)]).
Proof.
  exact (proj2 (proj2 (proj1 C8_analysis_twice_yields_the_same_table
           while_program {["i" := "int"]} [SDecl ["i"]; SAssign "i" (PInt 0)] eq_refl))).
Defined.

End Semantics.

(** ** The lexical phase of prgPythonPur.py *)

Module Lexer.
Import Py PrgPythonPur.

(** The runtime of this file's own [execute] starts from None. *)
Remark initial_runtime_is_None (symbol_table : gmap string string) var :
  is_Some (symbol_table !! var) -> initial_runtime symbol_table !! var = Some None.
Proof. intros [t Ht]. unfold initial_runtime. by rewrite lookup_fmap, Ht. Qed.

Example tokens_of_the_script :
  tokens "int x, y; x = 5; y = x + 2; print(y);"
  = [ ("INT", "int"); ("ID", "x"); ("COMMA", ","); ("ID", "y"); ("SEMICOLON", ";");
      ("ID", "x"); ("EQUAL", "="); ("NUMBER", "5"); ("SEMICOLON", ";");
      ("ID", "y"); ("EQUAL", "="); ("ID", "x"); ("PLUS", "+"); ("NUMBER", "2");
      ("SEMICOLON", ";");
      ("PRINT", "print"); ("LPAR", "("); ("ID", "y"); ("RPAR", ")"); ("SEMICOLON", ";") ].
Proof. reflexivity. Qed.

(** C7, on the code: the token list of prgPythonPur.py is built with
    re.finditer, which raises nothing: a character at which no pattern of
    [token_specification] matches is passed over and the search goes on
    behind it.  In "x = 5 $;" no pattern matches at the dollar sign; the
    token list is that of "x = 5 ;", with the semicolon behind the dollar
    sign in it. *)
Theorem C7_unmatched_characters_are_passed_over :
  (forall c cs,
      first_match token_specification (c :: cs) = None ->
      finditer 0 (c :: cs) = finditer 0 cs)
  /\ (forall c s,
        first_match token_specification (c :: list_ascii_of_string s) = None ->
        tokens (String c s) = tokens s)
  /\ first_match token_specification (list_ascii_of_string "$;") = None
  /\ tokens "x = 5 $;"
     = [("ID", "x"); ("EQUAL", "="); ("NUMBER", "5"); ("SEMICOLON", ";")]
  /\ tokens "x = 5 $;" = tokens "x = 5 ;".
Proof.
  assert (Hskip : forall c cs,
             first_match token_specification (c :: cs) = None ->
             finditer 0 (c :: cs) = finditer 0 cs).
  { intros c cs Hnone. cbn [finditer]. by rewrite Hnone. }
  split; [exact Hskip|]. split; [|by repeat split].
  intros c s Hnone. unfold tokens.
  change (list_ascii_of_string (String c s)) with (c :: list_ascii_of_string s).
  by rewrite Hskip.
Qed.

Lemma C7_unmatched_characters_witness :
  tokens "$;" = tokens ";".
Proof.
  refine (proj1 (proj2 C7_unmatched_characters_are_passed_over) "$"%char ";" _).
  reflexivity.
Defined.

End Lexer.

(** ** More on the evaluator of TP4.py *)

Module EvaluatorFacts.
Import Py TP4 Programs Shapes.

(** Induction on Python objects, with the items of a tuple or a list. *)
Lemma pyobj_induction (P : pyobj -> Prop) :
  (forall n, P (PInt n)) ->
  (forall f, P (PFloat f)) ->
  (forall s, P (PStr s)) ->
  (forall items, Forall P items -> P (PTuple items)) ->
  (forall items, Forall P items -> P (PList items)) ->
  forall o, P o.
Proof.
  intros Hint Hfloat Hstr Htuple Hlist.
  fix IH 1. intros [n|f|s|items|items].
  - apply Hint.
  - apply Hfloat.
  - apply Hstr.
  - apply Htuple.
    refine ((fix all (l : list pyobj) : Forall P l :=
               match l with
               | [] => @List.Forall_nil _ P
               | x :: l' => @List.Forall_cons _ P x l' (IH x) (all l')
               end) items).
  - apply Hlist.
    refine ((fix all (l : list pyobj) : Forall P l :=
               match l with
               | [] => @List.Forall_nil _ P
               | x :: l' => @List.Forall_cons _ P x l' (IH x) (all l')
               end) items).
Qed.

(** *** Names that are not in the runtime environment *)

Lemma lstrip_keeps_last cs c :
  is_space c = false -> exists cs', lstrip (cs ++ [c]) = cs' ++ [c].
Proof.
  intros Hc. induction cs as [|a cs IH]; simpl.
  - rewrite Hc. by exists [].
  - destruct (is_space a); [exact IH|]. by exists (a :: cs).
Qed.

Lemma strip_keeps_first c cs :
  is_space c = false -> exists cs', strip (c :: cs) = c :: cs'.
Proof.
  intros Hc. unfold strip. cbn [lstrip]. rewrite Hc. cbn [rev].
  destruct (lstrip_keeps_last (rev cs) c Hc) as [cs' ->].
  exists (rev cs'). by rewrite rev_app_distr.
Qed.

Lemma is_alpha_not_space c : is_alpha_ c = true -> is_space c = false.
Proof. by destruct c as [[] [] [] [] [] [] [] []]. Qed.

(** int(s) raises ValueError for every text that starts with a letter or an
    underscore. *)
Lemma py_int_identifier c s : is_alpha_ c = true -> py_int (String c s) = None.
Proof.
  intros Hc. unfold py_int. cbn [list_ascii_of_string].
  destruct (strip_keeps_first c (list_ascii_of_string s) (is_alpha_not_space c Hc))
    as [cs' ->].
  by destruct c as [[] [] [] [] [] [] [] []].
Qed.

(** X1: A name (a text that starts with a letter or an underscore) that is not
    a key of the runtime environment evaluates to the int 0: [eval_expr]
    tries int() on it, which fails, and falls back to 0 without raising. *)
Theorem undeclared_name_evaluates_to_zero :
  forall (rt : gmap string pyobj) c s,
    is_alpha_ c = true ->
    rt !! String c s = None ->
    eval_expr rt (PStr (String c s)) = Ok (PInt 0).
Proof.
  intros rt c s Hc Hnone. cbn [eval_expr]. rewrite Hnone.
  by rewrite py_int_identifier.
Qed.

Lemma undeclared_name_witness :
  eval_expr {["x" := PInt 4]} (PStr "total") = Ok (PInt 0).
Proof.
  exact (undeclared_name_evaluates_to_zero {["x" := PInt 4]} "t"%char "otal"
           eq_refl eq_refl).
Defined.

(** *** Integer arithmetic *)

Lemma is_arith_tuple items :
  is_arith (PTuple items) = true ->
  exists op e1 e2,
    items = [PStr op; e1; e2] /\ op ∈ ["+"; "-"; "*"]
    /\ is_arith e1 = true /\ is_arith e2 = true.
Proof.
  destruct items as [|o [|e1 [|e2 [|]]]]; try discriminate;
    destruct o as [| |op| |]; try discriminate.
  cbn [is_arith]. intros H.
  apply andb_prop in H as [H H2]. apply andb_prop in H as [Hop H1].
  apply bool_decide_eq_true in Hop. by exists op, e1, e2.
Qed.

Lemma eval_expr_arith (rt : gmap string pyobj) e :
  ints_only rt -> is_arith e = true -> exists n, eval_expr rt e = Ok (PInt n).
Proof.
  intros Hrt. induction e as [n|f|s|items IH|items _] using pyobj_induction;
    try discriminate.
  - intros _. by exists n.
  - intros _. cbn [eval_expr]. destruct (rt !! s) as [v|] eqn:Hs.
    + apply Hrt in Hs. destruct v; try discriminate. by eexists.
    + destruct (py_int s); by eexists.
  - intros (op & e1 & e2 & -> & Hop & H1 & H2)%is_arith_tuple.
    apply Forall_cons in IH as [_ IH].
    apply Forall_cons in IH as [IH1 IH].
    apply Forall_cons in IH as [IH2 _].
    destruct (IH1 H1) as [x Hx]. destruct (IH2 H2) as [y Hy].
    rewrite (Evaluator.eval_expr_binary _ _ _ _ _ _ _ Hx Hy).
    repeat (apply elem_of_cons in Hop as [->|Hop]); [| | |by apply elem_of_nil in Hop];
      by eexists.
Qed.

Lemma exec_stmt_arith (rt : gmap string pyobj) s :
  ints_only rt -> arith_stmt s = true ->
  exists rt' printed,
    exec_stmt rt s = Ok (rt', printed)
    /\ ints_only rt' /\ Forall (fun v => is_int v = true) printed.
Proof.
  intros Hrt Hs. destruct s as [vars|var e|var|tag rest].
  - by exists rt, [].
  - destruct (eval_expr_arith rt e Hrt Hs) as [n Hn].
    cbn -[eval_expr]. rewrite Hn. cbn. destruct (rt !! var).
    + exists (<[var := PInt n]> rt), []. split; [done|]. split; [|done].
      by apply map_Forall_insert_2.
    + by exists rt, [].
  - destruct (eval_expr_arith rt (PStr var) Hrt eq_refl) as [n Hn].
    cbn -[eval_expr]. rewrite Hn. cbn. exists rt, [PInt n].
    split; [done|]. split; [done|]. by repeat constructor.
  - by exists rt, [].
Qed.

Lemma run_arith ast st :
  ints_only (runtime st) ->
  Forall (fun v => is_int v = true) (output st) ->
  forallb arith_stmt ast = true ->
  (run ast st).2 = None
  /\ ints_only (runtime (run ast st).1)
  /\ Forall (fun v => is_int v = true) (output (run ast st).1).
Proof.
  revert st. induction ast as [|s ast IH]; intros st Hrt Hout Hall; [done|].
  cbn [forallb] in Hall. apply andb_prop in Hall as [Hs Hall].
  destruct (exec_stmt_arith (runtime st) s Hrt Hs) as (rt' & printed & He & Hrt' & Hp).
  cbn [run]. rewrite He. apply IH; [done| |done].
  cbn. by apply Forall_app.
Qed.

Lemma states_arith ast st :
  ints_only (runtime st) ->
  Forall (fun v => is_int v = true) (output st) ->
  forallb arith_stmt ast = true ->
  Forall (fun st' => ints_only (runtime st')
                     /\ Forall (fun v => is_int v = true) (output st'))
         (states ast st).
Proof.
  revert st. induction ast as [|s ast IH]; intros st Hrt Hout Hall.
  - by repeat constructor.
  - cbn [forallb] in Hall. apply andb_prop in Hall as [Hs Hall].
    destruct (exec_stmt_arith (runtime st) s Hrt Hs) as (rt' & printed & He & Hrt' & Hp).
    cbn [states]. rewrite He. constructor; [done|].
    apply IH; [done| |done]. cbn. apply Forall_app. by split.
Qed.

(** X2: In a program whose assignments have right-hand sides made of int
    literals, names and the operators + - * only, no operator meets an
    operand it rejects: whatever the symbol table, the execution raises none
    of TypeError, OverflowError, ZeroDivisionError and IndexError, and in
    every state it goes through the runtime environment holds ints only and
    the values printed so far are ints. *)
Theorem integer_programs_keep_ints :
  forall ast (symbol_table : gmap string string),
    forallb arith_stmt ast = true ->
    (forall e, e ∈ [TypeError; OverflowError; ZeroDivisionError; IndexError] ->
               (execute ast symbol_table).2 <> Some e)
    /\ Forall (fun st => ints_only (runtime st)
                         /\ Forall (fun v => is_int v = true) (output st))
              (states ast (State (initial_runtime symbol_table) [])).
Proof.
  intros ast symbol_table Hall.
  assert (Hinit : ints_only (initial_runtime symbol_table)).
  { intros k v. unfold initial_runtime. rewrite lookup_fmap.
    destruct (symbol_table !! k); [|done]. by intros [= <-]. }
  split.
  - intros e _. unfold execute.
    destruct (run_arith ast (State (initial_runtime symbol_table) []) Hinit
                (@List.Forall_nil _ _) Hall) as [-> _].
    discriminate.
  - by apply states_arith.
Qed.

Lemma integer_programs_witness :
  (execute sum_program {["x" := "int"; "y" := "int"]}).2 <> Some TypeError.
Proof.
  refine (proj1 (integer_programs_keep_ints sum_program
                   {["x" := "int"; "y" := "int"]} eq_refl) TypeError _).
  apply list_elem_of_here.
Defined.

(** *** Printing and assigning *)

Lemma exec_stmt_printed (rt rt' : gmap string pyobj) s printed :
  exec_stmt rt s = Ok (rt', printed) ->
  length printed = if is_print s then 1%nat else 0%nat.
Proof.
  destruct s as [vars|var e|var|tag rest]; cbn -[eval_expr]; try (by intros [= _ <-]).
  - destruct (eval_expr rt e); cbn; [|discriminate].
    by destruct (rt !! var); intros [= _ <-].
  - destruct (eval_expr rt (PStr var)); cbn; [|discriminate]. by intros [= _ <-].
Qed.

Lemma filter_print_cons s ast :
  length (filter is_print (s :: ast))
  = ((if is_print s then 1 else 0) + length (filter is_print ast))%nat.
Proof.
  rewrite filter_cons.
  destruct (decide (is_print s)) as [H|H]; destruct (is_print s); by simpl in *.
Qed.

Lemma run_output_length ast st :
  (length (output (run ast st).1) <= length (output st) + length (filter is_print ast))%nat
  /\ ((run ast st).2 = None ->
      length (output (run ast st).1)
      = (length (output st) + length (filter is_print ast))%nat).
Proof.
  revert st. induction ast as [|s ast IH]; intros st; [cbn; lia|].
  cbn [run]. destruct (exec_stmt (runtime st) s) as [[rt' printed]|e] eqn:He.
  - apply exec_stmt_printed in He.
    specialize (IH (State rt' (output st ++ printed))). cbn [output] in IH.
    rewrite length_app, He in IH. rewrite filter_print_cons.
    split; [|intros Hend; apply IH in Hend]; lia.
  - cbn. split; [lia|discriminate].
Qed.

(** X3: An execution prints one value per print statement it has executed: at
    most as many values as the program has print statements, and exactly as
    many when it ends without an exception. *)
Theorem one_output_per_print :
  forall ast (symbol_table : gmap string string),
    (length (output (execute ast symbol_table).1) <= length (filter is_print ast))%nat
    /\ ((execute ast symbol_table).2 = None ->
        length (output (execute ast symbol_table).1) = length (filter is_print ast)).
Proof.
  intros ast symbol_table.
  destruct (run_output_length ast (State (initial_runtime symbol_table) [])) as [Hle Heq].
  split; [exact Hle|]. intros Hend. by apply Heq in Hend.
Qed.

Lemma one_output_per_print_witness :
  length (output (execute sum_program {["x" := "int"; "y" := "int"]}).1)
  = length (filter is_print sum_program).
Proof.
  exact (proj2 (one_output_per_print sum_program {["x" := "int"; "y" := "int"]}) eq_refl).
Defined.

(** X4: After an assignment to a name of the runtime environment, reading that
    name yields the value the right-hand side had, whatever kind of object
    it is. *)
Theorem assigned_value_is_read_back :
  forall (rt : gmap string pyobj) var expr val,
    is_Some (rt !! var) ->
    eval_expr rt expr = Ok val ->
    exists rt',
      exec_stmt rt (SAssign var expr) = Ok (rt', [])
      /\ rt' !! var = Some val
      /\ eval_expr rt' (PStr var) = Ok val.
Proof.
  intros rt var expr val [old Hold] Hval. exists (<[var := val]> rt).
  assert (Hget : <[var := val]> rt !! var = Some val) by apply lookup_insert_eq.
  split; [|split; [exact Hget|]].
  - cbn -[eval_expr]. rewrite Hval. cbn. by rewrite Hold.
  - cbn [eval_expr]. by rewrite Hget.
Qed.

Lemma assigned_value_witness :
  exists rt',
    exec_stmt {["x" := PInt 0]} (SAssign "x" (div (PInt 7) (PInt 2))) = Ok (rt', [])
    /\ rt' !! "x" = Some (PFloat float_3_5)
    /\ eval_expr rt' (PStr "x") = Ok (PFloat float_3_5).
Proof.
  refine (assigned_value_is_read_back {["x" := PInt 0]} "x" (div (PInt 7) (PInt 2))
            (PFloat float_3_5) _ eq_refl).
  by eexists.
Defined.

(** *** Division never raises ZeroDivisionError *)

Lemma digits2_pos_bound (m : positive) :
  2 ^ (Z.pos (digits2_pos m) - 1) <= Z.pos m.
Proof.
  induction m as [m IH|m IH|]; cbn [digits2_pos]; [| |done].
  all: rewrite Pos2Z.inj_succ;
    replace (Z.succ (Z.pos (digits2_pos m)) - 1) with (Z.succ (Z.pos (digits2_pos m) - 1)) by lia;
    rewrite Z.pow_succ_r by lia; lia.
Qed.

Lemma shr_1_halves r k : 0 <= k -> k * 2 <= shr_m r -> k <= shr_m (shr_1 r).
Proof.
  destruct r as [m rb sb]. cbn [shr_m shr_1].
  destruct m as [|[p|p|]|p]; cbn [shr_m]; lia.
Qed.

Lemma iter_shr_1_bound (p : positive) :
  forall r k, 0 <= k -> k * 2 ^ Z.pos p <= shr_m r -> k <= shr_m (SpecFloat.iter_pos shr_1 p r).
Proof.
  induction p as [p IH|p IH|]; intros r k Hk Hle; cbn [SpecFloat.iter_pos].
  - replace (Z.pos p~1) with (Z.pos p + Z.pos p + 1) in Hle by lia.
    rewrite !Z.pow_add_r, Z.pow_1_r in Hle by lia.
    apply IH; [done|]. apply IH; [apply Z.mul_nonneg_nonneg; lia|].
    apply shr_1_halves; [repeat apply Z.mul_nonneg_nonneg; lia|lia].
  - replace (Z.pos p~0) with (Z.pos p + Z.pos p) in Hle by lia.
    rewrite Z.pow_add_r in Hle by lia.
    apply IH; [done|]. apply IH; [apply Z.mul_nonneg_nonneg; lia|lia].
  - apply shr_1_halves; [done|]. by rewrite Z.pow_1_r in Hle.
Qed.

(** Rounding to the format keeps a mantissa positive, as long as the
    exponent is not below the smallest one. *)
Lemma shr_fexp_positive (m : positive) e l :
  emin prec emax <= e ->
  0 < shr_m (shr_fexp prec emax (Z.pos m) e l).1
  /\ emin prec emax <= (shr_fexp prec emax (Z.pos m) e l).2.
Proof.
  intros He. unfold shr_fexp, shr. cbn [Zdigits2].
  set (n := fexp prec emax (Z.pos (digits2_pos m) + e) - e).
  assert (Hn : n <= Z.pos (digits2_pos m) - 1).
  { unfold n, fexp, emin, prec, emax in *. lia. }
  destruct n as [|p|p] eqn:Hp; cbn [fst snd].
  - by destruct l as [|[]].
  - split; [|lia].
    assert (1 <= shr_m (SpecFloat.iter_pos shr_1 p (shr_record_of_loc (Z.pos m) l))); [|lia].
    apply iter_shr_1_bound; [lia|].
    assert (Hm : shr_m (shr_record_of_loc (Z.pos m) l) = Z.pos m) by by destruct l as [|[]].
    rewrite Hm, Z.mul_1_l. pose proof (digits2_pos_bound m).
    assert (2 ^ Z.pos p <= 2 ^ (Z.pos (digits2_pos m) - 1)); [|lia].
    apply Z.pow_le_mono_r; lia.
  - by destruct l as [|[]].
Qed.

Lemma binary_round_aux_not_zero sx (m : positive) e l :
  emin prec emax <= e ->
  float_is_zero (binary_round_aux prec emax sx (Z.pos m) e l) = false.
Proof.
  intros He. unfold binary_round_aux.
  destruct (shr_fexp_positive m e l He) as [Hm1 He1].
  destruct (shr_fexp prec emax (Z.pos m) e l) as [mrs1 e1]. cbn [fst snd] in *.
  set (m2 := round_nearest_even (shr_m mrs1) (loc_of_shr_record mrs1)).
  assert (Hm2 : 0 < m2).
  { unfold m2, round_nearest_even.
    destruct (loc_of_shr_record mrs1) as [|[]]; try lia.
    destruct (Z.even (shr_m mrs1)); lia. }
  destruct m2 as [|p2|p2]; try lia.
  destruct (shr_fexp_positive p2 e1 loc_Exact He1) as [Hm3 _].
  destruct (shr_fexp prec emax (Z.pos p2) e1 loc_Exact) as [mrs3 e3]. cbn [fst] in Hm3.
  destruct (shr_m mrs3); try lia. by destruct (_ <=? _).
Qed.

(** float(n) of an int other than 0 is not a zero. *)
Lemma to_float_not_zero n f : n <> 0 -> to_float n = Ok f -> float_is_zero f = false.
Proof.
  intros Hn. unfold to_float.
  assert (Hz : float_is_zero (binary_normalize prec emax n 0 false) = false).
  { destruct n as [|m|m]; [done| |]; cbn [binary_normalize]; unfold binary_round.
    all: destruct (shl_align m 0 _) as [mz ez] eqn:Hal;
      apply binary_round_aux_not_zero;
      unfold shl_align in Hal;
      destruct (fexp prec emax (Z.pos (digits2_pos m) + 0) - 0) eqn:Hd;
      injection Hal as <- <-; unfold emin, fexp, prec, emax in *; lia. }
  destruct (binary_normalize prec emax n 0 false); try discriminate; by intros [= <-].
Qed.

Lemma to_float_raises n e : to_float n = Raise e -> e = OverflowError.
Proof.
  unfold to_float. by destruct (binary_normalize prec emax n 0 false); intros [= <-].
Qed.

Lemma py_truediv_no_zero_division a b :
  py_ne0 b = true -> py_truediv a b <> Raise ZeroDivisionError.
Proof.
  intros Hb. unfold py_truediv, arith.
  destruct a as [x|f| | |], b as [y|g| | |]; try discriminate; cbn in Hb.
  - unfold int_truediv. apply negb_true_iff in Hb. rewrite Hb.
    destruct (x =? 0); [discriminate|].
    destruct (SFdiv_core_binary _ _ _ _ _ _) as [[mz ez] lz].
    by destruct (binary_round_aux _ _ _ _ _ _).
  - destruct (to_float x) as [f|e] eqn:Hx; cbn;
      [|by rewrite (to_float_raises x e Hx)].
    unfold float_truediv. apply negb_true_iff in Hb. by rewrite Hb.
  - destruct (to_float y) as [g|e] eqn:Hy; cbn;
      [|by rewrite (to_float_raises y e Hy)].
    unfold float_truediv.
    rewrite (to_float_not_zero y g); [discriminate| |done].
    apply negb_true_iff in Hb. by apply Z.eqb_neq.
  - unfold float_truediv. apply negb_true_iff in Hb. by rewrite Hb.
Qed.

Lemma arith_no_zero_division fi ff a b r :
  (forall x y, fi x y <> Raise ZeroDivisionError) ->
  (forall f g, ff f g <> Raise ZeroDivisionError) ->
  arith fi ff a b = Some r -> r <> Raise ZeroDivisionError.
Proof.
  intros Hfi Hff. unfold arith.
  destruct a as [x|f| | |], b as [y|g| | |]; try discriminate; intros [= <-]; auto.
  - destruct (to_float x) as [f|e] eqn:Hx; cbn; [auto|].
    by rewrite (to_float_raises x e Hx).
  - destruct (to_float y) as [g|e] eqn:Hy; cbn; [auto|].
    by rewrite (to_float_raises y e Hy).
Qed.

Lemma py_add_no_zero_division a b : py_add a b <> Raise ZeroDivisionError.
Proof.
  unfold py_add. destruct (arith _ _ a b) as [r|] eqn:Hr.
  - by eapply arith_no_zero_division in Hr.
  - by destruct a, b.
Qed.

Lemma py_sub_no_zero_division a b : py_sub a b <> Raise ZeroDivisionError.
Proof.
  unfold py_sub. destruct (arith _ _ a b) as [r|] eqn:Hr; [|done].
  by eapply arith_no_zero_division in Hr.
Qed.

Lemma py_mul_no_zero_division a b : py_mul a b <> Raise ZeroDivisionError.
Proof.
  unfold py_mul. destruct (arith _ _ a b) as [r|] eqn:Hr.
  - by eapply arith_no_zero_division in Hr.
  - by destruct a, b.
Qed.

Lemma eval_expr_no_zero_division (rt : gmap string pyobj) e :
  eval_expr rt e <> Raise ZeroDivisionError.
Proof.
  induction e as [n|f|s|items IH|items _] using pyobj_induction; try done.
  - cbn [eval_expr]. destruct (rt !! s); [done|]. by destruct (py_int s).
  - destruct items as [|op [|e1 [|e2 rest]]]; try done.
    apply Forall_cons in IH as [_ IH].
    apply Forall_cons in IH as [IH1 IH].
    apply Forall_cons in IH as [IH2 _].
    cbn [eval_expr].
    destruct (eval_expr rt e1) as [v1|x1]; cbn; [|congruence].
    destruct (eval_expr rt e2) as [v2|x2]; cbn; [|congruence].
    destruct (is_str op "+"); [apply py_add_no_zero_division|].
    destruct (is_str op "-"); [apply py_sub_no_zero_division|].
    destruct (is_str op "*"); [apply py_mul_no_zero_division|].
    destruct (is_str op "/"); [|done].
    destruct (py_ne0 v2) eqn:Hne; [|done].
    by apply py_truediv_no_zero_division.
Qed.

(** X5: Whatever the expression and the runtime environment, [eval_expr] never
    raises ZeroDivisionError: the division is guarded by [right != 0] for
    ints and floats alike, and an int other than 0 never becomes the float
    0.0 when it is divided into a float.  So no execution is ended by a
    division by zero. *)
Theorem division_by_zero_is_never_raised :
  (forall (rt : gmap string pyobj) expr,
      eval_expr rt expr <> Raise ZeroDivisionError)
  /\ (forall ast (symbol_table : gmap string string),
        (execute ast symbol_table).2 <> Some ZeroDivisionError).
Proof.
  split; [exact eval_expr_no_zero_division|].
  intros ast symbol_table. unfold execute.
  generalize (State (initial_runtime symbol_table) []).
  induction ast as [|s ast IH]; intros st; [done|].
  cbn [run]. destruct (exec_stmt (runtime st) s) as [[rt' printed]|e] eqn:He; [apply IH|].
  cbn. intros [= ->]. revert He.
  destruct s as [vars|var expr|var|tag rest]; cbn -[eval_expr]; try discriminate.
  - destruct (eval_expr (runtime st) expr) as [v|e] eqn:Hv; cbn.
    + by destruct (runtime st !! var).
    + intros [= ->]. by apply eval_expr_no_zero_division in Hv.
  - destruct (eval_expr (runtime st) (PStr var)) as [v|e] eqn:Hv; cbn; [done|].
    intros [= ->]. by apply eval_expr_no_zero_division in Hv.
Qed.

(** *** The last assignment *)

Lemma run_app before after st :
  run (before ++ after) st
  = match run before st with
    | (st', None) => run after st'
    | (st', Some e) => (st', Some e)
    end.
Proof.
  revert st. induction before as [|s before IH]; intros st; [done|].
  cbn [app run]. destruct (exec_stmt (runtime st) s) as [[rt' printed]|e]; [apply IH|done].
Qed.

(** X6: A name of the runtime environment holds the value of the last
    assignment to it that was executed: when the statements before an
    assignment run without an exception and its right-hand side has a
    value, the name has this value after the statements that follow, as
    long as none of them assigns to it, wherever their execution ends. *)
Theorem last_assignment_wins :
  forall before var expr after st st1 val,
    run before st = (st1, None) ->
    is_Some (runtime st1 !! var) ->
    eval_expr (runtime st1) expr = Ok val ->
    Forall (fun s => target s <> Some var) after ->
    runtime (run (before ++ SAssign var expr :: after) st).1 !! var = Some val.
Proof.
  intros before var expr after st st1 val Hbefore [old Hold] Hval Hafter.
  rewrite run_app, Hbefore. cbn -[eval_expr]. rewrite Hval. cbn. rewrite Hold.
  rewrite Evaluator.run_untouched by done. cbn. apply lookup_insert_eq.
Qed.

Lemma last_assignment_witness :
  runtime (run ([SAssign "x" (PInt 1)] ++ SAssign "x" (PInt 5) :: [SPrint "x"])
               (State {["x" := PInt 0]} [])).1 !! "x" = Some (PInt 5).
Proof.
  refine (last_assignment_wins [SAssign "x" (PInt 1)] "x" (PInt 5) [SPrint "x"]
            (State {["x" := PInt 0]} []) (State {["x" := PInt 1]} []) (PInt 5)
            eq_refl _ eq_refl _).
  - by eexists.
  - repeat constructor. discriminate.
Defined.

End EvaluatorFacts.

(** ** More on the semantic analysis of TP4.py *)

Module SemanticsFacts.
Import Py TP4 Programs Shapes.

Lemma declare_ok var_list (symbol_table symbol_table' : gmap string string) :
  declare var_list symbol_table = (symbol_table', None) ->
  NoDup var_list /\ forall var, var ∈ var_list -> symbol_table !! var = None.
Proof.
  revert symbol_table. induction var_list as [|v var_list IH]; intros st Hd.
  - split; [constructor|]. by intros var ?%elem_of_nil.
  - cbn [declare] in Hd. destruct (st !! v) eqn:Hv; [discriminate|].
    apply IH in Hd as [Hnd Hfresh]. split.
    + constructor; [|done]. intros Hin. apply Hfresh in Hin.
      by rewrite lookup_insert_eq in Hin.
    + intros var [->|Hin]%elem_of_cons; [done|].
      apply Hfresh in Hin. by apply lookup_insert_None in Hin as [Hin _].
Qed.

Lemma check_from_ok ast_list (st st' : gmap string string) acc new_ast :
  check_from ast_list st acc = (st', Ok new_ast) ->
  NoDup (declared_names ast_list)
  /\ forall var, var ∈ declared_names ast_list -> st !! var = None.
Proof.
  revert st acc. induction ast_list as [|s ast_list IH]; intros st acc.
  - intros _. split; [constructor|]. by intros var ?%elem_of_nil.
  - destruct s as [vars|var e|var|tag rest]; cbn [check_from declared_names].
    + destruct (declare vars st) as [stm [e|]] eqn:Hd; [discriminate|].
      intros Hc. apply IH in Hc as [Hnd Hfresh].
      pose proof (Semantics.declare_entered _ _ _ Hd) as ->.
      apply declare_ok in Hd as [Hnd0 Hfresh0]. split.
      * apply NoDup_app. split; [done|]. split; [|done].
        intros v Hv Hv'. apply Hfresh in Hv'.
        by rewrite Semantics.entered_lookup in Hv'.
      * intros v [Hv|Hv]%elem_of_app; [by apply Hfresh0|].
        destruct (decide (v ∈ vars)) as [Hin|Hnot]; [by apply Hfresh0|].
        apply Hfresh in Hv. by rewrite Semantics.entered_lookup_other in Hv.
    + destruct (st !! var); [apply IH|discriminate].
    + destruct (st !! var); [apply IH|]. destruct (isdigit var); [apply IH|discriminate].
    + apply IH.
Qed.

(** X7: When the analysis of a program succeeds, no name is declared twice in
    it, the keys of the symbol table are exactly the declared names, and
    every entry has the type "int". *)
Theorem analysed_names_are_declared_once :
  forall ast_list (symbol_table : gmap string string) new_ast,
    analyse ast_list = (symbol_table, Ok new_ast) ->
    NoDup (declared_names ast_list)
    /\ (forall name, is_Some (symbol_table !! name) <-> name ∈ declared_names ast_list)
    /\ (forall name t, symbol_table !! name = Some t -> t = "int").
Proof.
  intros ast_list st new_ast Hc. unfold analyse, check in Hc.
  pose proof (Semantics.check_from_table _ _ _ _ _ Hc) as ->.
  apply check_from_ok in Hc as [Hnd _]. split; [done|].
  assert (Hkey : forall name,
             is_Some (entered (declared_names ast_list) ∅ !! name)
             <-> name ∈ declared_names ast_list).
  { intros name. destruct (decide (name ∈ declared_names ast_list)) as [Hin|Hnot].
    - rewrite Semantics.entered_lookup by done. split; [done|by eexists].
    - rewrite Semantics.entered_lookup_other, lookup_empty by done.
      split; [by intros [? ?]|done]. }
  split; [exact Hkey|].
  intros name t Ht.
  assert (Hin : name ∈ declared_names ast_list) by (apply Hkey; by eexists).
  rewrite Semantics.entered_lookup in Ht by done. congruence.
Qed.

Lemma analysed_names_witness :
  NoDup (declared_names sum_program).
Proof.
  exact (proj1 (analysed_names_are_declared_once sum_program
                  {["x" := "int"; "y" := "int"]} sum_program eq_refl)).
Defined.

(** *** Use before declaration *)

Lemma check_from_app before after (st : gmap string string) acc :
  check_from (before ++ after) st acc
  = match check_from before st acc with
    | (st', Ok acc') => check_from after st' acc'
    | (st', Raise e) => (st', Raise e)
    end.
Proof.
  revert st acc. induction before as [|s before IH]; intros st acc; [done|].
  destruct s as [vars|var e|var|tag rest]; cbn [app check_from].
  - destruct (declare vars st) as [stm [e|]]; [done|apply IH].
  - destruct (st !! var); [apply IH|done].
  - destruct (st !! var); [apply IH|]. destruct (isdigit var); [apply IH|done].
  - apply IH.
Qed.

(** The statement at which an analysis arrives finds in the table the names
    declared before it, and no other. *)
Lemma check_from_reaches before s after (st : gmap string string) new_ast :
  check ∅ (before ++ s :: after) = (st, Ok new_ast) ->
  exists acc,
    check_from (s :: after) (entered (declared_names before) ∅) acc = (st, Ok new_ast).
Proof.
  unfold check. rewrite check_from_app.
  destruct (check_from before ∅ []) as [stb [acc|e]] eqn:Hb; [|discriminate].
  apply Semantics.check_from_table in Hb as ->. intros Hc. by exists acc.
Qed.

Lemma entered_empty_lookup var_list name :
  is_Some (entered var_list ∅ !! name) -> name ∈ var_list.
Proof.
  intros Hsome. destruct (decide (name ∈ var_list)) as [Hin|Hnot]; [done|].
  rewrite Semantics.entered_lookup_other, lookup_empty in Hsome by done.
  by destruct Hsome.
Qed.

(** X8: In a program that passes the analysis, the target of every assignment
    is declared by a declaration that stands before the assignment, and the
    operand of every print is declared before the print or is a string of
    digits: a declaration further down does not count. *)
Theorem names_are_declared_before_use :
  forall before s after (symbol_table : gmap string string) new_ast,
    analyse (before ++ s :: after) = (symbol_table, Ok new_ast) ->
    match s with
    | SAssign var _ => var ∈ declared_names before
    | SPrint var => var ∈ declared_names before \/ isdigit var = true
    | _ => True
    end.
Proof.
  intros before s after st new_ast Hc.
  apply check_from_reaches in Hc as [acc Hc].
  destruct s as [vars|var e|var|tag rest]; [done| | |done]; cbn [check_from] in Hc.
  - destruct (entered (declared_names before) ∅ !! var) eqn:Hv; [|discriminate].
    apply entered_empty_lookup. by eexists.
  - destruct (entered (declared_names before) ∅ !! var) eqn:Hv.
    + left. apply entered_empty_lookup. by eexists.
    + right. by destruct (isdigit var).
Qed.

Lemma names_are_declared_before_use_witness :
  "y" ∈ declared_names [SDecl ["x"; "y"]; SAssign "x" (PInt 5)].
Proof.
  exact (names_are_declared_before_use
           [SDecl ["x"; "y"]; SAssign "x" (PInt 5)]
           (SAssign "y" (PTuple [PStr "+"; PStr "x"; PInt 2])) [SPrint "y"]
           {["x" := "int"; "y" := "int"]} sum_program eq_refl).
Defined.

(** *** Analysis, then execution *)

Lemma check_from_targets ast_list (st st' : gmap string string) acc new_ast :
  check_from ast_list st acc = (st', Ok new_ast) ->
  forall var expr, SAssign var expr ∈ ast_list -> is_Some (st' !! var).
Proof.
  revert st acc. induction ast_list as [|s ast_list IH]; intros st acc Hc var expr Hin.
  - by apply elem_of_nil in Hin.
  - apply elem_of_cons in Hin as [<-|Hin].
    + cbn [check_from] in Hc. destruct (st !! var) eqn:Hv; [|discriminate].
      eapply Semantics.check_from_grows; [exact Hc|]. by eexists.
    + destruct s as [vars|var' e'|var'|tag rest]; cbn [check_from] in Hc.
      * destruct (declare vars st) as [stm [e|]]; [discriminate|]. by eapply IH.
      * destruct (st !! var'); [by eapply IH|discriminate].
      * destruct (st !! var'); [by eapply IH|].
        destruct (isdigit var'); [by eapply IH|discriminate].
      * by eapply IH.
Qed.

(** X9: When a program has passed the analysis and is executed with the symbol
    table and the AST the analysis returned, the target of each of its
    assignments is a key of the runtime environment in every state of the
    execution: an executed assignment always stores its value, and the
    branch that passes over an unknown target is never taken. *)
Theorem analysed_assignments_always_store :
  forall ast_syntax (symbol_table : gmap string string) ast_semantic,
    analyse ast_syntax = (symbol_table, Ok ast_semantic) ->
    forall var expr,
      SAssign var expr ∈ ast_semantic ->
      Forall (fun st => is_Some (runtime st !! var)
                        /\ forall val, eval_expr (runtime st) expr = Ok val ->
                             exec_stmt (runtime st) (SAssign var expr)
                             = Ok (<[var := val]> (runtime st), []))
             (states ast_semantic (State (initial_runtime symbol_table) [])).
Proof.
  intros ast_syntax st ast_semantic Hc var expr Hin.
  unfold analyse, check in Hc.
  assert (Hvar : is_Some (st !! var)).
  { eapply check_from_targets; [exact Hc|].
    apply Semantics.check_from_copies in Hc. cbn in Hc. subst ast_semantic.
    by apply list_elem_of_filter in Hin as [_ Hin]. }
  eapply Forall_impl;
    [apply (Evaluator.states_dom ast_semantic (State (initial_runtime st) []))|].
  intros state Hdom. cbn in Hdom. unfold initial_runtime in Hdom.
  rewrite dom_fmap_L in Hdom.
  assert (Hkey : is_Some (runtime state !! var)).
  { apply elem_of_dom. rewrite Hdom. by apply elem_of_dom. }
  split; [done|]. intros val Hval. destruct Hkey as [old Hold].
  cbn -[eval_expr]. rewrite Hval. cbn. by rewrite Hold.
Qed.

Lemma analysed_assignments_witness :
  is_Some (initial_runtime {["x" := "int"; "y" := "int"]} !! "x").
Proof.
  refine (proj1 (Forall_inv (analysed_assignments_always_store sum_program
                   {["x" := "int"; "y" := "int"]} sum_program eq_refl "x" (PInt 5) _))).
  apply list_elem_of_further, list_elem_of_here.
Defined.

(** *** Printing a string of digits *)

Lemma is_digit_not_space c : is_digit c = true -> is_space c = false.
Proof. by destruct c as [[] [] [] [] [] [] [] []]. Qed.

Lemma lstrip_digits cs : forallb is_digit cs = true -> lstrip cs = cs.
Proof.
  destruct cs as [|c cs]; [done|]. cbn [forallb lstrip].
  intros [Hc _]%andb_prop. by rewrite (is_digit_not_space c Hc).
Qed.

Lemma strip_digits cs : forallb is_digit cs = true -> strip cs = cs.
Proof.
  intros Hall. unfold strip. rewrite (lstrip_digits cs Hall).
  rewrite lstrip_digits; [apply rev_involutive|].
  apply forallb_forall. intros c Hc. apply in_rev in Hc.
  by apply (proj1 (forallb_forall _ _) Hall).
Qed.

Lemma digits_value_digits cs :
  forallb is_digit cs = true ->
  forall acc after_digit,
    0 <= acc -> after_digit = true \/ cs <> [] ->
    exists n, 0 <= n /\ digits_value acc after_digit cs = Some n.
Proof.
  induction cs as [|c cs IH]; intros Hall acc after_digit Hacc Hwhy.
  - destruct Hwhy as [->|Hne]; [by exists acc|done].
  - cbn [forallb] in Hall. apply andb_prop in Hall as [Hc Hall].
    cbn [digits_value]. rewrite Hc. apply IH; [done| |by left].
    unfold digit_value, is_digit in *. apply andb_prop in Hc as [Hc _].
    apply N.leb_le in Hc. lia.
Qed.

Lemma py_int_digits s :
  isdigit s = true -> exists n, 0 <= n /\ py_int s = Some n.
Proof.
  unfold isdigit, py_int. destruct (list_ascii_of_string s) as [|c cs] eqn:Hs; [done|].
  intros Hall. rewrite (strip_digits _ Hall).
  destruct (digits_value_digits (c :: cs) Hall 0 false) as (n & Hn & Hv);
    [done|by right|].
  exists n. split; [done|].
  cbn [forallb] in Hall. apply andb_prop in Hall as [Hc _].
  revert Hv Hc. by destruct c as [[] [] [] [] [] [] [] []].
Qed.

Lemma digits_value_bound cs :
  forallb is_digit cs = true ->
  forall acc after_digit,
    0 <= acc -> after_digit = true \/ cs <> [] ->
    exists n, 0 <= n < (acc + 1) * 10 ^ Z.of_nat (length cs)
              /\ digits_value acc after_digit cs = Some n.
Proof.
  induction cs as [|c cs IH]; intros Hall acc after_digit Hacc Hwhy.
  - destruct Hwhy as [->|Hne]; [|done]. exists acc. split; [cbn; lia|done].
  - cbn [forallb] in Hall. apply andb_prop in Hall as [Hc Hall].
    cbn [digits_value]. rewrite Hc.
    assert (Hd : 0 <= digit_value c <= 9).
    { unfold digit_value, is_digit in *. apply andb_prop in Hc as [Hlo Hhi].
      apply N.leb_le in Hlo, Hhi. lia. }
    destruct (IH Hall (10 * acc + digit_value c) true) as (n & Hn & Hv);
      [lia|by left|].
    exists n. split; [|done].
    cbn [length]. rewrite Nat2Z.inj_succ, Z.pow_succ_r by lia.
    assert (Hp : 0 < 10 ^ Z.of_nat (length cs)) by (apply Z.pow_pos_nonneg; lia).
    nia.
Qed.

Lemma length_list_ascii s : length (list_ascii_of_string s) = String.length s.
Proof. induction s as [|c s IH]; [done|]. cbn. by rewrite IH. Qed.

(** int(s) of a string of digits is below 10 to the number of digits. *)
Lemma py_int_digits_bound s :
  isdigit s = true ->
  exists n, 0 <= n < 10 ^ Z.of_nat (String.length s) /\ py_int s = Some n.
Proof.
  unfold isdigit, py_int. rewrite <- length_list_ascii.
  destruct (list_ascii_of_string s) as [|c cs] eqn:Hs; [done|].
  intros Hall. rewrite (strip_digits _ Hall).
  destruct (digits_value_bound (c :: cs) Hall 0 false) as (n & Hn & Hv);
    [done|by right|].
  exists n. split; [lia|].
  cbn [forallb] in Hall. apply andb_prop in Hall as [Hc _].
  revert Hv Hc. by destruct c as [[] [] [] [] [] [] [] []].
Qed.

(** X10: A print whose operand is a string of digits that is not a declared
    name passes the analysis; when the string has no more digits than int()
    converts, the print prints the number the digits stand for, an int that
    is not negative and has no more digits than print converts. *)
Theorem printing_digits_prints_the_number :
  forall s,
    isdigit s = true ->
    (String.length s <= max_str_digits)%nat ->
    exists n,
      0 <= n < 10 ^ Z.of_nat max_str_digits
      /\ py_int s = Some n
      /\ (forall (symbol_table : gmap string string) ast_list new_ast,
            symbol_table !! s = None ->
            check_from (SPrint s :: ast_list) symbol_table new_ast
            = check_from ast_list symbol_table (new_ast ++ [SPrint s]))
      /\ (forall rt : gmap string pyobj,
            rt !! s = None -> exec_stmt rt (SPrint s) = Ok (rt, [PInt n])).
Proof.
  intros s Hs Hlen. destruct (py_int_digits_bound s Hs) as (n & Hn & Hv).
  exists n. split.
  { split; [lia|]. eapply Z.lt_le_trans; [apply Hn|].
    apply Z.pow_le_mono_r; lia. }
  split; [done|]. split.
  - intros st ast_list new_ast Hnone. cbn [check_from]. by rewrite Hnone, Hs.
  - intros rt Hnone. cbn. by rewrite Hnone, Hv.
Qed.

Lemma printing_digits_witness :
  exists n, 0 <= n /\ py_int "007" = Some n /\ exec_stmt ∅ (SPrint "007") = Ok (∅, [PInt n]).
Proof.
  assert (Hlen : (String.length "007" <= max_str_digits)%nat)
    by (unfold max_str_digits; cbn; lia).
  destruct (printing_digits_prints_the_number "007" eq_refl Hlen)
    as (n & Hn & Hv & _ & Hp).
  exists n. split; [lia|]. split; [done|]. apply Hp. apply lookup_empty.
Defined.

(** *** The analysis of analyse_minipython.py *)



(** *** The symbol table when [check] returns or raises *)





End SemanticsFacts.

(** ** More on the lexical phase of prgPythonPur.py *)

Module LexerFacts.
Import Py PrgPythonPur LexShapes.

Lemma run_length_le cls cs : (run_length cls cs <= length cs)%nat.
Proof. induction cs as [|c cs IH]; cbn; [lia|]. destruct (cls c); cbn; lia. Qed.

Lemma run_length_take cls cs :
  run_length cls (take (run_length cls cs) cs) = run_length cls cs.
Proof.
  induction cs as [|c cs IH]; [done|]. cbn [run_length].
  destruct (cls c) eqn:Hc; [|done]. cbn [take run_length]. by rewrite Hc, IH.
Qed.

Lemma run_length_all cls cs :
  run_length cls cs = length cs -> forallb cls cs = true.
Proof.
  induction cs as [|c cs IH]; [done|]. cbn [run_length forallb length].
  destruct (cls c); [|discriminate]. intros [= H]. by apply IH.
Qed.

Lemma is_prefix_take t cs :
  is_prefix t cs = true -> (length t <= length cs)%nat /\ take (length t) cs = t.
Proof.
  revert cs. induction t as [|a t IH]; intros cs; [by rewrite take_0; cbn; split; [lia|]|].
  destruct cs as [|c cs]; [discriminate|]. cbn [is_prefix].
  intros [Hac Ht]%andb_prop. apply bool_decide_eq_true in Hac as ->.
  apply IH in Ht as [Hle Htake]. cbn [length take]. rewrite Htake. split; [lia|done].
Qed.

Lemma is_prefix_refl t : is_prefix t t = true.
Proof.
  induction t as [|a t IH]; [done|]. cbn. rewrite IH.
  by rewrite bool_decide_eq_true_2.
Qed.

(** A match is a prefix of the text, and the pattern matches it in full. *)
Lemma match_length_sound p cs n :
  match_length p cs = Some n ->
  (n <= length cs)%nat /\ match_length p (take n cs) = Some n.
Proof.
  destruct p as [text|cls|head cls]; cbn [match_length].
  - destruct (is_prefix _ cs) eqn:Hp; [|discriminate]. intros [= <-].
    apply is_prefix_take in Hp as [Hle Htake]. split; [done|].
    by rewrite Htake, is_prefix_refl.
  - destruct (run_length cls cs) as [|k] eqn:Hr; [discriminate|]. intros [= <-].
    split; [rewrite <- Hr; apply run_length_le|].
    rewrite <- Hr, run_length_take. by rewrite Hr.
  - destruct cs as [|c cs]; [discriminate|].
    destruct (head c) eqn:Hc; [|discriminate]. intros [= <-].
    pose proof (run_length_le cls cs). split; [cbn; lia|].
    cbn [take]. by rewrite Hc, run_length_take.
Qed.

Lemma first_match_sound spec cs name n :
  first_match spec cs = Some (name, n) ->
  exists p, (name, p) ∈ spec /\ match_length p cs = Some n.
Proof.
  induction spec as [|[name' p'] spec IH]; [discriminate|]. cbn [first_match].
  destruct (match_length p' cs) as [k|] eqn:Hm.
  - intros [= <- <-]. exists p'. split; [apply list_elem_of_here|done].
  - intros (p & Hin & Hp)%IH. exists p. split; [by apply list_elem_of_further|done].
Qed.

(** No pattern of [token_specification] matches the empty text. *)
Lemma token_specification_positive name p cs n :
  (name, p) ∈ token_specification -> match_length p cs = Some n -> (1 <= n)%nat.
Proof.
  unfold token_specification. intros Hin.
  repeat (apply elem_of_cons in Hin as [[= -> ->]|Hin]);
    [..|by apply elem_of_nil in Hin]; cbn [match_length].
  all: try (destruct (is_prefix _ cs); [|discriminate]; intros [= <-]; cbn; lia).
  - destruct (run_length _ cs); [discriminate|]. intros [= <-]. lia.
  - destruct cs as [|c cs]; [discriminate|]. destruct (is_alpha_ c); [|discriminate].
    intros [= <-]. lia.
  - destruct (run_length _ cs); [discriminate|]. intros [= <-]. lia.
Qed.

Lemma finditer_well_matched cs : forall skip, Forall well_matched (finditer skip cs).
Proof.
  induction cs as [|c cs IH]; intros skip; [constructor|].
  cbn [finditer]. destruct skip as [|k]; [|apply IH].
  destruct (first_match token_specification (c :: cs)) as [[name n]|] eqn:Hm; [|apply IH].
  constructor; [|apply IH].
  apply first_match_sound in Hm as (p & Hin & Hp).
  pose proof (token_specification_positive _ _ _ _ Hin Hp) as Hpos.
  apply match_length_sound in Hp as [Hle Hp].
  unfold well_matched. cbn [fst snd].
  rewrite list_ascii_of_string_of_list_ascii, length_take, Nat.min_l by done.
  split; [|by exists p].
  destruct n as [|n]; [lia|]. by cbn.
Qed.

Lemma tokens_well_matched code_source :
  Forall (fun t => t.1 <> "SKIP" /\ well_matched t) (tokens code_source).
Proof.
  apply Forall_forall. intros t Ht.
  unfold tokens in Ht. apply list_elem_of_filter in Ht as [Hkind Hin].
  split; [done|].
  pose proof (finditer_well_matched (list_ascii_of_string code_source) 0) as Hall.
  rewrite Forall_forall in Hall. by apply Hall.
Qed.

(** X13: Every token of the token list has a kind of [token_specification]
    other than SKIP and a text that is not empty and that the pattern of
    its kind matches in full. *)
Theorem tokens_are_well_matched :
  forall code_source,
    Forall (fun t => t.1 <> "SKIP" /\ well_matched t) (tokens code_source).
Proof. exact tokens_well_matched. Qed.

Lemma number_pattern p : ("NUMBER", p) ∈ token_specification -> p = OneOrMore is_digit.
Proof.
  unfold token_specification. intros Hin.
  repeat (apply elem_of_cons in Hin as [Heq|Hin]; [by injection Heq|]).
  by apply elem_of_nil in Hin.
Qed.

Lemma id_pattern p :
  ("ID", p) ∈ token_specification -> p = HeadThenMany is_alpha_ is_word.
Proof.
  unfold token_specification. intros Hin.
  repeat (apply elem_of_cons in Hin as [Heq|Hin]; [by injection Heq|]).
  by apply elem_of_nil in Hin.
Qed.

(** X14: The text of a NUMBER token is a string of digits, so that int() of
    it succeeds as long as it has no more digits than int() converts; the
    text of an ID token starts with a letter or an underscore, so that
    int() of it fails. *)
Theorem number_and_id_tokens :
  forall code_source kind text,
    (kind, text) ∈ tokens code_source ->
    (kind = "NUMBER" ->
     isdigit text = true
     /\ ((String.length text <= Shapes.max_str_digits)%nat ->
         exists n, 0 <= n /\ py_int text = Some n))
    /\ (kind = "ID" ->
        exists c s, text = String c s /\ is_alpha_ c = true /\ py_int text = None).
Proof.
  intros code_source kind text Hin.
  pose proof (tokens_well_matched code_source) as Hall.
  rewrite Forall_forall in Hall.
  destruct (Hall _ Hin) as [_ [Hne (p & Hp & Hm)]]. cbn [fst snd] in *.
  split; intros ->.
  - apply number_pattern in Hp as ->. cbn [match_length] in Hm.
    assert (Hd : isdigit text = true).
    { unfold isdigit. destruct (list_ascii_of_string text) as [|c cs] eqn:Ht.
      - discriminate Hm.
      - apply run_length_all. destruct (run_length is_digit (c :: cs)); congruence. }
    split; [done|]. intros _. by apply SemanticsFacts.py_int_digits.
  - apply id_pattern in Hp as ->. cbn [match_length] in Hm.
    destruct text as [|c s]; [done|]. cbn [list_ascii_of_string] in Hm.
    destruct (is_alpha_ c) eqn:Hc; [|done].
    exists c, s. split; [done|]. split; [done|].
    by apply EvaluatorFacts.py_int_identifier.
Qed.

Lemma number_and_id_tokens_witness :
  isdigit "5" = true /\ exists n, 0 <= n /\ py_int "5" = Some n.
Proof.
  destruct (proj1 (number_and_id_tokens "x = 5 $;" "NUMBER" "5"
                     ltac:(vm_compute;
                           apply list_elem_of_further, list_elem_of_further,
                                 list_elem_of_here))
                  eq_refl) as [Hd Hn].
  split; [exact Hd|]. apply Hn. unfold Shapes.max_str_digits. cbn. lia.
Defined.

(** *** Tokens and the source text *)

Lemma characters_cons t ts :
  characters (t :: ts) = list_ascii_of_string t.2 ++ characters ts.
Proof. reflexivity. Qed.

Lemma finditer_characters cs :
  forall skip, characters (finditer skip cs) `sublist_of` drop skip cs.
Proof.
  induction cs as [|c cs IH]; intros skip; [by destruct skip|].
  cbn [finditer]. destruct skip as [|k]; [|apply IH].
  destruct (first_match token_specification (c :: cs)) as [[name n]|] eqn:Hm.
  - apply first_match_sound in Hm as (p & Hin & Hp).
    pose proof (token_specification_positive _ _ _ _ Hin Hp) as Hpos.
    destruct n as [|n]; [lia|].
    rewrite characters_cons. cbn [snd Nat.pred drop take].
    rewrite list_ascii_of_string_of_list_ascii.
    cbn [app]. apply sublist_skip.
    assert (H : take n cs ++ characters (finditer n cs)
                `sublist_of` take n cs ++ drop n cs)
      by (apply sublist_app; [done|apply IH]).
    by rewrite take_drop in H.
  - apply sublist_cons. apply (IH 0%nat).
Qed.

Lemma characters_filter (P : string * string -> Prop) `{!forall t, Decision (P t)} ts :
  characters (filter P ts) `sublist_of` characters ts.
Proof.
  induction ts as [|t ts IH]; [done|]. rewrite filter_cons, characters_cons.
  destruct (decide (P t)).
  - rewrite characters_cons. by apply sublist_app.
  - by apply sublist_inserts_l.
Qed.

(** X15: The characters of the tokens, taken in order, are a subsequence of the
    source text: the lexical phase may leave characters out (blanks, and
    the characters no pattern matches), but it neither adds nor reorders
    nor repeats any. *)
Theorem token_characters_come_from_the_source :
  forall code_source,
    characters (tokens code_source) `sublist_of` list_ascii_of_string code_source.
Proof.
  intros code_source. unfold tokens.
  etransitivity; [apply characters_filter|].
  apply (finditer_characters (list_ascii_of_string code_source) 0).
Qed.

Lemma first_match_int cs :
  first_match token_specification ("i"%char :: "n"%char :: "t"%char :: cs)
  = Some ("INT", 3%nat).
Proof. reflexivity. Qed.

Lemma first_match_print cs :
  first_match token_specification
    ("p"%char :: "r"%char :: "i"%char :: "n"%char :: "t"%char :: cs)
  = Some ("PRINT", 5%nat).
Proof. reflexivity. Qed.

(** X16: A text that starts with the letters of a keyword gives the keyword
    token, whatever follows: "integer" is the token INT and then the tokens
    of "eger", and "printx" is the token PRINT and then the tokens of
    "x". *)
Theorem keywords_are_cut_off_names :
  forall s,
    tokens ("int" +:+ s) = ("INT", "int") :: tokens s
    /\ tokens ("print" +:+ s) = ("PRINT", "print") :: tokens s.
Proof.
  intros s. unfold tokens. split.
  - change (list_ascii_of_string ("int" +:+ s))
      with ("i"%char :: "n"%char :: "t"%char :: list_ascii_of_string s).
    cbn [finditer]. rewrite first_match_int. cbn [finditer Nat.pred].
    by rewrite filter_cons_True.
  - change (list_ascii_of_string ("print" +:+ s))
      with ("p"%char :: "r"%char :: "i"%char :: "n"%char :: "t"%char
            :: list_ascii_of_string s).
    cbn [finditer]. rewrite first_match_print. cbn [finditer Nat.pred].
    by rewrite filter_cons_True.
Qed.

End LexerFacts.


(** ** The script prgPythonPur.py *)

Module PurScriptFacts.
Import Py PrgPythonPur PurScript PurShapes LexShapes LexerFacts.

(** *** The parsing loop *)

Lemma parse_from_next tokens st st' :
  parse_step tokens st = Next st' ->
  forall fuel, parse_from (S fuel) tokens st = parse_from fuel tokens st'.
Proof. intros Hstep fuel. cbn [parse_from]. by rewrite Hstep. Qed.

Lemma parse_from_stuck tokens st :
  parse_step tokens st = Next st -> forall fuel, parse_from fuel tokens st = None.
Proof.
  intros Hstep fuel. induction fuel as [|fuel IH]; [done|].
  by rewrite (parse_from_next _ _ _ Hstep).
Qed.

Lemma parse_from_runs_on tokens st st' :
  parse_step tokens st = Next st' ->
  (forall fuel, parse_from fuel tokens st' = None) ->
  forall fuel, parse_from fuel tokens st = None.
Proof.
  intros Hstep Hrest [|fuel]; [done|]. by rewrite (parse_from_next _ _ _ Hstep).
Qed.

Lemma parse_step_other tokens st kind text :
  tokens !! pos st = Some (kind, text) ->
  kind <> "INT" -> kind <> "ID" -> kind <> "PRINT" ->
  parse_step tokens st = Next st.
Proof.
  intros Htok H1 H2 H3. unfold parse_step. rewrite Htok.
  by rewrite !bool_decide_eq_false_2.
Qed.

(** X17: The parsing loop moves on only at the tokens INT, ID and PRINT: at any
    other token it leaves its position as it is and so never ends.  That is
    where it stands after an assignment without a sum, or after a print,
    which is followed by a semicolon: the loop never gets past a statement
    such as "x = 5;" or "print(y);", and the script never gets past the
    source text it holds. *)
Theorem parsing_never_ends_at_a_semicolon :
  (forall tokens st kind text,
      tokens !! pos st = Some (kind, text) ->
      kind <> "INT" -> kind <> "ID" -> kind <> "PRINT" ->
      forall fuel, parse_from fuel tokens st = None)
  /\ (forall tokens st name value text,
        tokens !! pos st = Some ("ID", name) ->
        tokens !! (pos st + 2)%nat = Some value ->
        tokens !! (pos st + 3)%nat = Some ("SEMICOLON", text) ->
        forall fuel, parse_from fuel tokens st = None)
  /\ (forall tokens st text operand text',
        tokens !! pos st = Some ("PRINT", text) ->
        tokens !! (pos st + 2)%nat = Some operand ->
        tokens !! (pos st + 4)%nat = Some ("SEMICOLON", text') ->
        forall fuel, parse_from fuel tokens st = None)
  /\ (forall fuel, parse fuel (tokens code_source) = None).
Proof.
  assert (Hother : forall tokens st kind text,
             tokens !! pos st = Some (kind, text) ->
             kind <> "INT" -> kind <> "ID" -> kind <> "PRINT" ->
             forall fuel, parse_from fuel tokens st = None).
  { intros tokens st kind text Htok H1 H2 H3.
    apply parse_from_stuck. by eapply parse_step_other. }
  assert (Hassign : forall tokens st name value text,
             tokens !! pos st = Some ("ID", name) ->
             tokens !! (pos st + 2)%nat = Some value ->
             tokens !! (pos st + 3)%nat = Some ("SEMICOLON", text) ->
             forall fuel, parse_from fuel tokens st = None).
  { intros tokens st name [k left_val] text H0 H2 H3.
    eapply parse_from_runs_on.
    - unfold parse_step. rewrite H0. cbn. rewrite H2, H3. reflexivity.
    - eapply Hother; [exact H3|done..]. }
  split; [exact Hother|]. split; [exact Hassign|]. split.
  - intros tokens st text [k var_name] text' H0 H2 H4.
    eapply parse_from_runs_on.
    + unfold parse_step. rewrite H0. cbn. rewrite H2. reflexivity.
    + eapply Hother; [exact H4|done..].
  - unfold parse. eapply parse_from_runs_on; [vm_compute; reflexivity|].
    eapply Hassign; reflexivity.
Qed.

Lemma parsing_never_ends_witness : parse 1000 (tokens "x = 5;") = None.
Proof.
  exact (proj1 (proj2 parsing_never_ends_at_a_semicolon) (tokens "x = 5;")
           (PState 0 ∅ []) "x" ("NUMBER", "5") ";" eq_refl eq_refl eq_refl 1000%nat).
Defined.

(** *** Declarations *)

Lemma ids_cons kind text body :
  ids ((kind, text) :: body) = if bool_decide (kind = "ID") then text :: ids body else ids body.
Proof.
  unfold ids. rewrite filter_cons. cbn [fst].
  destruct (decide (kind = "ID")) as [->|Hne].
  - by rewrite bool_decide_eq_true_2.
  - by rewrite bool_decide_eq_false_2.
Qed.

Lemma decl_names_body body text rest :
  Forall (fun t => t.1 <> "SEMICOLON") body ->
  decl_names (body ++ ("SEMICOLON", text) :: rest) = Some (ids body, length body).
Proof.
  induction 1 as [|[kind t] body Hk _ IH]; [done|].
  cbn [app decl_names]. cbn [fst] in Hk.
  rewrite bool_decide_eq_false_2 by done. by rewrite IH, ids_cons.
Qed.

Lemma lookup_after {A} (before ts : list A) i :
  (before ++ ts) !! (length before + i)%nat = ts !! i.
Proof. induction before as [|b before IH]; [done|exact IH]. Qed.

Lemma drop_after {A} (before ts : list A) i :
  drop (S (length before + i)) (before ++ ts) = drop (S i) ts.
Proof. induction before as [|b before IH]; [done|exact IH]. Qed.

(** The loop does on the tokens that follow [before] what it does on them
    alone. *)
Lemma parse_step_shift before ts st :
  parse_step (before ++ ts) (shift (length before) st)
  = match parse_step ts st with
    | Done => Done
    | Fail e => Fail e
    | Next st' => Next (shift (length before) st')
    end.
Proof.
  destruct st as [i table a]. unfold parse_step, shift. cbn [pos symbol_table ast].
  rewrite lookup_after, drop_after, <- !Nat.add_assoc, !lookup_after.
  destruct (ts !! i) as [[tok val]|]; [|done].
  destruct (bool_decide (tok = "INT")).
  { destruct (decl_names (drop (S i) ts)) as [[vars n]|]; [|done].
    cbn [pos symbol_table ast]; do 2 f_equal; lia. }
  destruct (bool_decide (tok = "ID")).
  { destruct (ts !! (i + 2)%nat) as [[k left_val]|]; [|done].
    destruct (ts !! (i + 3)%nat) as [[k3 v3]|] eqn:H3;
      [|cbn [pos symbol_table ast]; do 2 f_equal; lia].
    destruct (decide (k3 = "PLUS")) as [->|Hne].
    - destruct (ts !! (i + 4)%nat) as [[k4 text]|]; [|done].
      destruct (py_int text); [|done].
      cbn [pos symbol_table ast]; do 2 f_equal; lia.
    - assert (Hsame : forall (X : Type) (x y : X),
                 match k3 with "PLUS" => x | _ => y end = y).
      { intros X x y.
        repeat (first [ reflexivity
                      | destruct k3 as [|[[] [] [] [] [] [] [] []] k3];
                        try reflexivity; try done ]). }
      rewrite !Hsame; cbn [pos symbol_table ast]; do 2 f_equal; lia. }
  destruct (bool_decide (tok = "PRINT")); [|done].
  destruct (ts !! (i + 2)%nat) as [[k var_name]|]; [|done].
  cbn [pos symbol_table ast]; do 2 f_equal; lia.
Qed.

Lemma parse_from_shift before ts st fuel :
  parse_from fuel (before ++ ts) (shift (length before) st) = parse_from fuel ts st.
Proof.
  revert st. induction fuel as [|fuel IH]; intros st; [done|].
  cbn [parse_from]. rewrite parse_step_shift.
  destruct (parse_step ts st) as [|st'|e]; [by destruct st|apply IH|done].
Qed.

Lemma parse_step_declaration body rest table a :
  Forall (fun t => t.1 <> "SEMICOLON") body ->
  parse_step (declaration body ++ rest) (PState 0 table a)
  = Next (shift (length (declaration body))
                (PState 0 (foldl (fun m v => <[v := "int"]> m) table (ids body))
                        (a ++ [decl_node (ids body)]))).
Proof.
  intros Hbody. unfold parse_step, declaration, shift. cbn [pos symbol_table ast].
  cbn [app lookup list_lookup drop]. rewrite bool_decide_eq_true_2 by done.
  rewrite drop_0, <- app_assoc. cbn [app]. rewrite (decl_names_body _ _ _ Hbody).
  do 2 f_equal. cbn [length]. rewrite length_app. cbn. lia.
Qed.

Lemma parse_from_declarations bodies :
  Forall (Forall (fun t => t.1 <> "SEMICOLON")) bodies ->
  forall table a fuel,
    (length bodies < fuel)%nat ->
    parse_from fuel (concat (declaration <$> bodies)) (PState 0 table a)
    = Some (inr (foldl (fun m v => <[v := "int"]> m) table (concat (ids <$> bodies)),
                 a ++ (decl_node <$> (ids <$> bodies)))).
Proof.
  induction 1 as [|body bodies Hbody _ IH]; intros table a fuel Hfuel.
  - destruct fuel as [|fuel]; [cbn in Hfuel; lia|]. cbn. by rewrite app_nil_r.
  - destruct fuel as [|fuel]; [cbn in Hfuel; lia|].
    cbn [fmap list_fmap concat].
    rewrite (parse_from_next _ _ _ (parse_step_declaration body _ table a Hbody)).
    rewrite parse_from_shift, IH by (cbn in Hfuel; lia).
    by rewrite foldl_app, <- app_assoc.
Qed.

(** X18: A source text made of declarations only is parsed to its end.  Each
    declaration enters the text of every ID token that stands between its
    keyword and its semicolon, whatever stands between the names, and adds
    one Decl statement with these names; a name that is declared again is
    entered again, and nothing is raised. *)
Theorem declarations_are_parsed_without_check :
  forall bodies fuel,
    Forall (Forall (fun t => t.1 <> "SEMICOLON")) bodies ->
    (length bodies < fuel)%nat ->
    parse fuel (concat (declaration <$> bodies))
    = Some (inr (foldl (fun m v => <[v := "int"]> m) ∅ (concat (ids <$> bodies)),
                 decl_node <$> (ids <$> bodies))).
Proof.
  intros bodies fuel Hbodies Hfuel. unfold parse.
  by rewrite (parse_from_declarations bodies Hbodies ∅ [] fuel Hfuel).
Qed.

Lemma declarations_are_parsed_witness :
  parse 3 (tokens "int x, y; int y;")
  = Some (inr (foldl (fun m v => <[v := "int"]> m) ∅ ["x"; "y"; "y"],
               [decl_node ["x"; "y"]; decl_node ["y"]])).
Proof.
  refine (declarations_are_parsed_without_check
            [[("ID", "x"); ("COMMA", ","); ("ID", "y")]; [("ID", "y")]] 3 _ _).
  - repeat constructor; discriminate.
  - cbn. lia.
Defined.

(** *** Names in labels *)

Lemma split_go_plain cs :
  ":"%char ∉ cs -> split_go [":"%char; " "%char] 0 cs = [cs].
Proof.
  induction cs as [|c cs IH]; [done|].
  intros [Hc Hcs]%not_elem_of_cons. cbn [split_go is_prefix].
  rewrite bool_decide_eq_false_2 by done. cbn [andb]. by rewrite IH.
Qed.

Lemma split_go_keep sep c cs :
  is_prefix sep (c :: cs) = false ->
  split_go sep 0 (c :: cs)
  = match split_go sep 0 cs with
    | part :: parts => (c :: part) :: parts
    | [] => [[c]]
    end.
Proof. intros H. cbn [split_go]. by rewrite H. Qed.

Lemma split_go_cut sep c cs :
  is_prefix sep (c :: cs) = true ->
  split_go sep 0 (c :: cs) = [] :: split_go sep (Nat.pred (length sep)) cs.
Proof. intros H. cbn [split_go]. by rewrite H. Qed.

Lemma split_var v :
  ":"%char ∉ list_ascii_of_string v ->
  split ": " ("Var: " +:+ v) = ["Var"; v].
Proof.
  intros Hv. unfold split.
  change (list_ascii_of_string ("Var: " +:+ v))
    with ("V"%char :: "a"%char :: "r"%char :: ":"%char :: " "%char
          :: list_ascii_of_string v).
  change (list_ascii_of_string ": ") with [":"%char; " "%char].
  rewrite (split_go_keep _ "V"%char) by reflexivity.
  rewrite (split_go_keep _ "a"%char) by reflexivity.
  rewrite (split_go_keep _ "r"%char) by reflexivity.
  rewrite (split_go_cut _ ":"%char) by reflexivity.
  cbn [length Nat.pred split_go]. rewrite (split_go_plain _ Hv).
  cbn [fmap list_fmap]. by rewrite string_of_list_ascii_of_string.
Qed.

Lemma name_of_var v rest :
  ":"%char ∉ list_ascii_of_string v -> name_of (PStr ("Var: " +:+ v) :: rest) = inr v.
Proof. intros Hv. unfold name_of. by rewrite (split_var v Hv). Qed.

Lemma class_without_colon (cls : ascii -> bool) cs :
  cls ":"%char = false -> forallb cls cs = true -> ":"%char ∉ cs.
Proof.
  intros Hcls Hall Hin. apply list_elem_of_In in Hin.
  apply (proj1 (forallb_forall _ _) Hall) in Hin. congruence.
Qed.

Lemma literal_match text cs :
  is_prefix text cs = true -> length text = length cs -> cs = text.
Proof.
  intros [_ Htake]%is_prefix_take Hlen. rewrite Hlen in Htake.
  by rewrite firstn_all in Htake.
Qed.

(** No text that a pattern of [token_specification] matches has a colon. *)
Lemma well_matched_without_colon t :
  well_matched t -> ":"%char ∉ list_ascii_of_string t.2.
Proof.
  intros [_ (p & Hin & Hm)]. revert Hm. generalize (list_ascii_of_string t.2) as cs.
  unfold token_specification in Hin. intros cs.
  repeat (apply elem_of_cons in Hin as [[= _ ->]|Hin]);
    [..|by apply elem_of_nil in Hin]; cbn [match_length].
  all: try (destruct (is_prefix _ cs) eqn:Hp; [|discriminate]; intros [= Hlen];
            apply literal_match in Hp as ->; [|done];
            by repeat (apply not_elem_of_cons; split; [done|]); apply not_elem_of_nil).
  - destruct (run_length is_digit cs) eqn:Hr; [discriminate|]. intros [= Hlen].
    apply (class_without_colon is_digit); [done|]. apply run_length_all. congruence.
  - destruct cs as [|c cs]; [discriminate|].
    destruct (is_alpha_ c) eqn:Hc; [|discriminate]. intros [= Hlen].
    apply not_elem_of_cons. split; [by intros <-|].
    apply (class_without_colon is_word); [done|]. by apply run_length_all.
  - destruct (run_length is_blank cs) eqn:Hr; [discriminate|]. intros [= Hlen].
    apply (class_without_colon is_blank); [done|]. apply run_length_all. congruence.
Qed.

(** X19: The name the parsing loop writes into the label "Var: name" of an
    assignment or a print is the name [semantic_check] and [execute] read
    back from it with split(': ')[1]: for every text without a colon, and
    so for the text of every token. *)
Theorem labels_give_the_name_back :
  (forall v expr,
      ":"%char ∉ list_ascii_of_string v ->
      name_of (assign_node v expr).2 = inr v /\ name_of (print_node v).2 = inr v)
  /\ (forall code_source kind text expr,
        (kind, text) ∈ tokens code_source ->
        name_of (assign_node text expr).2 = inr text
        /\ name_of (print_node text).2 = inr text).
Proof.
  assert (Hplain : forall v expr,
             ":"%char ∉ list_ascii_of_string v ->
             name_of (assign_node v expr).2 = inr v /\ name_of (print_node v).2 = inr v).
  { intros v expr Hv. split; by apply name_of_var. }
  split; [exact Hplain|].
  intros code_source kind text expr Hin. apply Hplain.
  pose proof (LexerFacts.tokens_well_matched code_source) as Hall.
  rewrite Forall_forall in Hall. destruct (Hall _ Hin) as [_ Hw].
  by apply well_matched_without_colon in Hw.
Qed.

Lemma labels_give_the_name_back_witness :
  name_of (assign_node "total" (plain_expr "5")).2 = inr "total"
  /\ name_of (print_node "total").2 = inr "total".
Proof.
  refine (proj1 labels_give_the_name_back "total" (plain_expr "5") _).
  vm_compute. by repeat (apply not_elem_of_cons; split; [done|]); apply not_elem_of_nil.
Defined.

(** *** semantic_check and execute *)

Lemma filter_known_cons stmt ast :
  filter known (stmt :: ast)
  = if known stmt then stmt :: filter known ast else filter known ast.
Proof.
  rewrite filter_cons.
  destruct (decide (known stmt)) as [H|H]; destruct (known stmt); by simpl in *.
Qed.

Lemma semantic_check_from_spec (table : gmap string string) ast :
  forall acc new_ast,
    semantic_check_from ast table acc = inr new_ast
    <-> Forall (fun stmt => names_a_variable stmt = true ->
                  exists var, name_of stmt.2 = inr var /\ is_Some (table !! var)) ast
        /\ new_ast = acc ++ filter known ast.
Proof.
  induction ast as [|stmt ast IH]; intros acc new_ast.
  - cbn. rewrite app_nil_r. split; [by intros [= <-]|by intros [_ ->]].
  - cbn [semantic_check_from]. rewrite Forall_cons, filter_known_cons.
    unfold names_a_variable at 1, known at 1. rewrite <- orb_assoc.
    destruct (startswith stmt.1 "Decl") eqn:Hd; cbn [negb andb orb].
    { rewrite IH, <- app_assoc. cbn [app]. split.
      - by intros [Hall ->].
      - by intros [[_ Hall] ->]. }
    destruct (startswith stmt.1 "Assign" || startswith stmt.1 "Print") eqn:Hap;
      cbn [negb andb orb].
    + destruct (name_of stmt.2) as [e|var] eqn:Hname.
      { split; [done|]. intros [[Hv _] _]. by destruct (Hv eq_refl) as (v & ? & _). }
      destruct (table !! var) as [ty|] eqn:Hvar.
      * rewrite IH, <- app_assoc. cbn [app]. split.
        -- intros [Hall ->]. split; [|done]. split; [|done].
           intros _. exists var. split; [done|by eexists].
        -- by intros [[_ Hall] ->].
      * split; [done|]. intros [[Hv _] _].
        destruct (Hv eq_refl) as (v & [= <-] & Hsome).
        rewrite Hvar in Hsome. by destruct Hsome.
    + rewrite IH. split.
      * by intros [Hall ->].
      * by intros [[_ Hall] ->].
Qed.

(** X20: [semantic_check] accepts an AST exactly when each of its Assign and
    Print statements names a key of the symbol table it is given, and then
    returns the Decl, Assign and Print statements of the AST in their
    order.  The order of the statements plays no part (the table is
    complete before the check starts, so a name may be used above its
    declaration), and declarations are never looked at. *)
Theorem semantic_check_looks_names_up :
  forall ast (table : gmap string string) new_ast,
    semantic_check ast table = inr new_ast
    <-> Forall (fun stmt => names_a_variable stmt = true ->
                  exists var, name_of stmt.2 = inr var /\ is_Some (table !! var)) ast
        /\ new_ast = filter known ast.
Proof. intros ast table new_ast. apply (semantic_check_from_spec table ast []). Qed.

Lemma semantic_check_witness :
  semantic_check [assign_node "x" (plain_expr "5"); decl_node ["x"]] {["x" := "int"]}
  = inr (filter known [assign_node "x" (plain_expr "5"); decl_node ["x"]]).
Proof.
  refine (proj2 (semantic_check_looks_names_up
                   [assign_node "x" (plain_expr "5"); decl_node ["x"]] {["x" := "int"]}
                   _) (conj _ eq_refl)).
  repeat constructor.
  - intros _. exists "x". split; [reflexivity|by eexists].
  - discriminate.
Defined.

Lemma execute_from_spec ast (rt : gmap string (option pyobj)) printed :
  (forall k v, rt !! k = Some v -> v = None) ->
  Forall (fun v => v = None) printed ->
  Forall (fun v => v = None) (execute_from ast rt printed).1
  /\ (Exists (fun stmt => startswith stmt.1 "Assign" = true) ast ->
      (execute_from ast rt printed).2 <> None).
Proof.
  intros Hrt. revert printed. induction ast as [|stmt ast IH]; intros printed Hp.
  - split; [done|]. by intros ?%Exists_nil.
  - cbn [execute_from]. rewrite Exists_cons.
    destruct (startswith stmt.1 "Assign") eqn:Ha.
    { by destruct (name_of stmt.2). }
    destruct (startswith stmt.1 "Print").
    + destruct (name_of stmt.2) as [e|var]; [done|].
      destruct (rt !! var) as [value|] eqn:Hv; [|done].
      apply Hrt in Hv as ->.
      destruct (IH (printed ++ [None])) as [H1 H2];
        [apply Forall_app; split; [done|by repeat constructor]|].
      split; [done|]. intros [Hhd|Hex]; [congruence|by apply H2].
    + destruct (IH printed Hp) as [H1 H2].
      split; [done|]. intros [Hhd|Hex]; [congruence|by apply H2].
Qed.

(** X21: [execute] never stores a value: every value it prints is None, and an
    AST with an Assign statement is never executed to its end (the
    statement raises when its name or its third item is read). *)
Theorem execute_prints_nothing_but_None :
  forall ast (table : gmap string string),
    Forall (fun v => v = None) (execute ast table).1
    /\ (Exists (fun stmt => startswith stmt.1 "Assign" = true) ast ->
        (execute ast table).2 <> None).
Proof.
  intros ast table. apply execute_from_spec; [|done].
  intros k v. unfold initial_runtime. rewrite lookup_fmap.
  destruct (table !! k); [|done]. by intros [= <-].
Qed.

Lemma execute_prints_witness :
  (execute [decl_node ["x"]; print_node "x"; assign_node "x" (plain_expr "5")]
           {["x" := "int"]}).2 <> None.
Proof.
  refine (proj2 (execute_prints_nothing_but_None
                   [decl_node ["x"]; print_node "x"; assign_node "x" (plain_expr "5")]
                   {["x" := "int"]}) _).
  do 2 apply Exists_cons_tl. by apply Exists_cons_hd.
Defined.

End PurScriptFacts.
